(** * Layered configuration resolution of rhc (package internal/conf)

    A shallow embedding of [internal/conf/config.go]: the resolved
    [Config], the partial [configDTO] decoded from one TOML document, the
    field-wise merge [Update], the discovery and loading of drop-in files
    and the resolver [Read], together with the package initialiser [init]
    that fills the process-wide [Configuration].

    The operating system ([os.ReadFile], [os.Stat], [os.ReadDir]), the TOML
    decoder ([toml.Unmarshal]), [filepath.Join] and the embedded document
    [defaultConfig] are not part of the package: the file system is a
    record of the three calls, the others are section variables. *)

From Stdlib Require Import String Ascii List ZArith Bool Lia.
From Stdlib Require Import Permutation Sorted.
Import ListNotations.

Local Open Scope string_scope.
Local Open Scope Z_scope.

(** ** log/slog levels *)

Module slog.
(** [type Level int], with the four named constants of the library. *)
Definition Level : Type := Z.
Definition LevelDebug : Level := -4.
Definition LevelInfo : Level := 0.
Definition LevelWarn : Level := 4.
Definition LevelError : Level := 8.
End slog.

(** ** Data model *)

(** [type Config struct]: every field is a plain value. *)
Record Config : Type := mkConfig {
  CADir : string;
  CertFile : string;
  KeyFile : string;
  LogLevel : slog.Level
}.

(** The zero value [Config{}]: empty strings and level [0]. *)
Definition zeroConfig : Config :=
  {| CADir := EmptyString; CertFile := EmptyString;
     KeyFile := EmptyString; LogLevel := 0 |}.

(** [type configDTO struct]: every field is a [*string]; [nil] is [None]. *)
Module dto.
Record configDTO : Type := mk {
  CertFile : option string;
  KeyFile : option string;
  LogLevel : option string;
  CADir : option string
}.
End dto.
Abbreviation configDTO := dto.configDTO.

(** The value [configDTO{}] with every pointer nil. *)
Definition emptyDTO : configDTO := dto.mk None None None None.

(** Assignments to one field of a [Config]. *)
Definition set_CertFile (c : Config) (v : string) : Config :=
  {| CADir := CADir c; CertFile := v; KeyFile := KeyFile c; LogLevel := LogLevel c |}.
Definition set_KeyFile (c : Config) (v : string) : Config :=
  {| CADir := CADir c; CertFile := CertFile c; KeyFile := v; LogLevel := LogLevel c |}.
Definition set_LogLevel (c : Config) (v : slog.Level) : Config :=
  {| CADir := CADir c; CertFile := CertFile c; KeyFile := KeyFile c; LogLevel := v |}.
Definition set_CADir (c : Config) (v : string) : Config :=
  {| CADir := v; CertFile := CertFile c; KeyFile := KeyFile c; LogLevel := LogLevel c |}.

(** [func (c *Config) Update(dto configDTO)]: the four [if] statements in
    the order of the source; the [switch] on the level name has no
    [default] branch. *)
Definition Update (c : Config) (d : configDTO) : Config :=
  let c := match dto.CertFile d with
           | Some v => set_CertFile c v
           | None => c
           end in
  let c := match dto.KeyFile d with
           | Some v => set_KeyFile c v
           | None => c
           end in
  let c := match dto.LogLevel d with
           | Some v =>
               if (v =? "DEBUG")%string then set_LogLevel c slog.LevelDebug
               else if (v =? "INFO")%string then set_LogLevel c slog.LevelInfo
               else if (v =? "WARN")%string then set_LogLevel c slog.LevelWarn
               else if (v =? "ERROR")%string then set_LogLevel c slog.LevelError
               else c
           | None => c
           end in
  match dto.CADir d with
  | Some v => set_CADir c v
  | None => c
  end.

(** ** Vocabulary of the merge laws *)

(** The four recognised fields. *)
Inductive field : Type := FCertFile | FKeyFile | FLogLevel | FCADir.

(** What a resolved field holds: a path or a level. *)
Inductive fieldval : Type :=
| VString (s : string)
| VLevel (l : slog.Level).

Definition get (c : Config) (f : field) : fieldval :=
  match f with
  | FCertFile => VString (CertFile c)
  | FKeyFile => VString (KeyFile c)
  | FLogLevel => VLevel (LogLevel c)
  | FCADir => VString (CADir c)
  end.

(** What an overlay says about a field: [None] when absent, the document's
    string when present. *)
Definition overlay (d : configDTO) (f : field) : option string :=
  match f with
  | FCertFile => dto.CertFile d
  | FKeyFile => dto.KeyFile d
  | FLogLevel => dto.LogLevel d
  | FCADir => dto.CADir d
  end.

(** Lookup of a key in a table keyed by strings. *)
Fixpoint lookup {A : Type} (k : string) (l : list (string * A)) : option A :=
  match l with
  | [] => None
  | (k', a) :: l' => if (k =? k')%string then Some a else lookup k l'
  end.

(** The names of the level enumeration and the levels they denote. *)
Definition levelNames : list (string * slog.Level) :=
  [ ("DEBUG"%string, slog.LevelDebug); ("INFO"%string, slog.LevelInfo);
    ("WARN"%string, slog.LevelWarn); ("ERROR"%string, slog.LevelError) ].

(** The level a name denotes, if it is one of the four. *)
Definition levelNamed (v : string) : option slog.Level := lookup v levelNames.

(** A resolved field equals the value [v] of a document: the same string
    for a path, the level that [v] names for the log level. *)
Definition field_is (c : Config) (f : field) (v : string) : Prop :=
  match f with
  | FCertFile => CertFile c = v
  | FKeyFile => KeyFile c = v
  | FLogLevel => levelNamed v = Some (LogLevel c)
  | FCADir => CADir c = v
  end.

(** ** Errors *)

(** The system errors that matter here; [ENOENT] is the one that
    [os.IsNotExist] recognises. *)
Inductive errno : Type := ENOENT | EACCES | ENOTDIR | EISDIR | EIO.

(** Go error values: an [*fs.PathError] of the [os] package, the decoder's
    own error, and [fmt.Errorf("<msg>: %w", cause)]. *)
Inductive error : Type :=
| PathError (op path : string) (e : errno)
| DecodeError (msg : string)
| Errorf (msg : string) (cause : error).

Definition errno_text (e : errno) : string :=
  match e with
  | ENOENT => "no such file or directory"
  | EACCES => "permission denied"
  | ENOTDIR => "not a directory"
  | EISDIR => "is a directory"
  | EIO => "input/output error"
  end.

(** [err.Error()]. *)
Fixpoint Error (e : error) : string :=
  match e with
  | PathError op path n => op ++ " " ++ path ++ ": " ++ errno_text n
  | DecodeError msg => msg
  | Errorf msg cause => msg ++ ": " ++ Error cause
  end.

(** [os.IsNotExist]: looks inside a [PathError] only, never through the
    wrapping of [fmt.Errorf]. *)
Definition IsNotExist (e : error) : bool :=
  match e with
  | PathError _ _ ENOENT => true
  | _ => false
  end.

(** A Go result pair [(value, err)] of which the caller uses one side. *)
Inductive result (A : Type) : Type :=
| Ok (a : A)
| Err (e : error).
Arguments Ok {A} a.
Arguments Err {A} e.

(** ** The file system seen through the [os] package *)

(** [fs.DirEntry], as far as it is inspected: [Name()] and [IsDir()]. *)
Record DirEntry : Type := mkEntry {
  Name : string;
  IsDir : bool
}.

(** The three calls the package makes.  [Stat] keeps the error only, the
    sole part of its result that is looked at. *)
Record FileSystem : Type := mkFS {
  ReadFile : string -> result string;
  Stat : string -> option error;
  ReadDir : string -> result (list DirEntry)
}.

(** ** Library functions on strings *)

(** [strings.HasSuffix(s, suffix)]:
    [len(s) >= len(suffix) && s[len(s)-len(suffix):] == suffix]. *)
Definition HasSuffix (s suffix : string) : bool :=
  let n := String.length s in
  let m := String.length suffix in
  (m <=? n)%nat && (substring (n - m) m s =? suffix)%string.

(** Insertion of one string into an ascending list. *)
Fixpoint insert_sorted (x : string) (l : list string) : list string :=
  match l with
  | [] => [x]
  | y :: l' => if String.leb x y then x :: l else y :: insert_sorted x l'
  end.

(** [sort.Strings]: ascending byte-wise order.  Equal strings are
    indistinguishable, so the result does not depend on the algorithm. *)
Fixpoint sort_Strings (l : list string) : list string :=
  match l with
  | [] => []
  | x :: l' => insert_sorted x (sort_Strings l')
  end.

(** [a < b] on strings, byte-wise. *)
Definition str_lt (a b : string) : Prop := String.compare a b = Lt.
Definition str_le (a b : string) : Prop := String.leb a b = true.

(** ** The resolver *)

(** [type ConfigSource struct]. *)
Record ConfigSource : Type := mkSource {
  Path : string;
  DropInDir : string
}.

(** What the package initialiser leaves behind: the package variable
    [Configuration] assigned, or a panic with its message. *)
Inductive startup : Type :=
| Installed (Configuration : Config)
| Panicked (msg : string).

Section Resolver.

(** [toml.Unmarshal] into a fresh [configDTO]. *)
Variable toml_Unmarshal : string -> result configDTO.
(** [filepath.Join] of a directory and an entry name. *)
Variable filepath_Join : string -> string -> string.
(** The embedded document [data/etc/config.toml]. *)
Variable defaultConfig : string.
(** The file system the process runs on. *)
Variable fs : FileSystem.

(** [func parseConfigDTO(data string) (configDTO, error)]. *)
Definition parseConfigDTO (data : string) : result configDTO :=
  match toml_Unmarshal data with
  | Ok d => Ok d
  | Err e => Err (Errorf "failed to parse TOML" e)
  end.

(** The loop of [findDropInFiles] that collects the [.toml] entries. *)
Fixpoint collectFilenames (dir : string) (entries : list DirEntry)
    (filenames : list string) : list string :=
  match entries with
  | [] => filenames
  | entry :: rest =>
      if IsDir entry then collectFilenames dir rest filenames
      else if HasSuffix (Name entry) ".toml"
      then collectFilenames dir rest (filenames ++ [filepath_Join dir (Name entry)])
      else collectFilenames dir rest filenames
  end.

(** [func (cs *ConfigSource) findDropInFiles() ([]string, error)]. *)
Definition findDropInFiles (cs : ConfigSource) : result (list string) :=
  let missing := match Stat fs (DropInDir cs) with
                 | Some err => IsNotExist err
                 | None => false
                 end in
  if missing then Ok []
  else
    match ReadDir fs (DropInDir cs) with
    | Err e => Err (Errorf ("failed to read drop-in directory " ++ DropInDir cs) e)
    | Ok entries => Ok (sort_Strings (collectFilenames (DropInDir cs) entries []))
    end.

(** The loop of [parseDropInFiles]: the first file that cannot be read or
    decoded ends it with [nil] and the error. *)
Fixpoint loadEach (paths : list string) (dtos : list configDTO)
    : result (list configDTO) :=
  match paths with
  | [] => Ok dtos
  | path :: rest =>
      match ReadFile fs path with
      | Err e => Err e
      | Ok data =>
          match parseConfigDTO data with
          | Err e => Err (Errorf ("failed to parse " ++ path) e)
          | Ok d => loadEach rest (dtos ++ [d])
          end
      end
  end.

(** [func (cs *ConfigSource) parseDropInFiles() ([]configDTO, error)]. *)
Definition parseDropInFiles (cs : ConfigSource) : result (list configDTO) :=
  match findDropInFiles cs with
  | Err e => Err e
  | Ok paths => loadEach paths []
  end.

(** The last part of [Read], from the comment "Load drop-in files" on. *)
Definition applyDropIns (cs : ConfigSource) (resolved : Config)
    : Config * option error :=
  match parseDropInFiles cs with
  | Err e => (resolved, Some e)
  | Ok dropInDTOs => (fold_left Update dropInDTOs resolved, None)
  end.

(** [func (cs *ConfigSource) Read() (Config, error)].  The calls to
    [slog.Error] only write to the log and are left out. *)
Definition Read (cs : ConfigSource) : Config * option error :=
  let resolved := zeroConfig in
  match parseConfigDTO defaultConfig with
  | Err e => (resolved, Some (Errorf "failed to parse embedded defaults" e))
  | Ok d =>
      let resolved := Update resolved d in
      match ReadFile fs (Path cs) with
      | Err e =>
          if negb (IsNotExist e)
          then (resolved, Some (Errorf ("failed to load " ++ Path cs) e))
          else applyDropIns cs resolved
      | Ok data =>
          match parseConfigDTO data with
          | Err e => (resolved, Some (Errorf ("failed to parse " ++ Path cs) e))
          | Ok mainDTO => applyDropIns cs (Update resolved mainDTO)
          end
      end
  end.

(** The sources the initialiser reads. *)
Definition defaultSources : ConfigSource :=
  {| Path := "/etc/rhc/config.toml"; DropInDir := "/etc/rhc/config.toml.d/" |}.

(** [func init()]. *)
Definition init : startup :=
  let (config, err) := Read defaultSources in
  match err with
  | Some _ =>
      match parseConfigDTO defaultConfig with
      | Err parseErr =>
          Panicked ("failed to parse embedded defaults: " ++ Error parseErr)
      | Ok d => Installed (Update config d)
      end
  | None => Installed config
  end.

(** *** Vocabulary of the resolver laws *)

(** The document at [path] can be read and decodes to the overlay [d]. *)
Definition loadsTo (path : string) (d : configDTO) : Prop :=
  exists data, ReadFile fs path = Ok data /\ parseConfigDTO data = Ok d.

(** There is no file at [path]: reading it fails with "not exist". *)
Definition fileMissing (path : string) : Prop :=
  exists e, ReadFile fs path = Err e /\ IsNotExist e = true.

(** The main-file stage goes through: the file does not exist
    ([dm = None]) or it loads to an overlay ([dm = Some d]). *)
Definition mainStage (cs : ConfigSource) (dm : option configDTO) : Prop :=
  match dm with
  | None => fileMissing (Path cs)
  | Some d => loadsTo (Path cs) d
  end.

(** The drop-in directory does not exist. *)
Definition dirMissing (cs : ConfigSource) : Prop :=
  exists e, Stat fs (DropInDir cs) = Some e /\ IsNotExist e = true.

(** The drop-in directory exists and lists [entries]. *)
Definition dirLists (cs : ConfigSource) (entries : list DirEntry) : Prop :=
  (forall e, Stat fs (DropInDir cs) = Some e -> IsNotExist e = false) /\
  ReadDir fs (DropInDir cs) = Ok entries.

(** The override file [name] of the directory loads to [d]. *)
Definition overrideLoads (cs : ConfigSource) (name : string) (d : configDTO) : Prop :=
  loadsTo (filepath_Join (DropInDir cs) name) d.

End Resolver.

(** The names of the override files among [entries]: the entries that are
    not directories and whose name ends in [.toml], in listing order. *)
Definition overrideNames (entries : list DirEntry) : list string :=
  map Name
    (filter (fun entry => negb (IsDir entry) && HasSuffix (Name entry) ".toml") entries).

(** Joining a directory and an entry name puts the same directory prefix
    before every name: what [filepath.Join] does for the names that a
    directory listing contains. *)
Definition joinsByPrefix (filepath_Join : string -> string -> string)
    (dir : string) (names : list string) : Prop :=
  exists prefix, forall n, In n names -> filepath_Join dir n = (prefix ++ n)%string.

(** The value resolved once the baseline [d0] and the main-file stage [dm]
    are applied. *)
Definition afterMain (d0 : configDTO) (dm : option configDTO) : Config :=
  match dm with
  | Some d => Update (Update zeroConfig d0) d
  | None => Update zeroConfig d0
  end.

(** The overlays that a successful resolution applies, in order. *)
Definition layers (d0 : configDTO) (dm : option configDTO)
    (dropInDTOs : list configDTO) : list configDTO :=
  d0 :: match dm with Some d => d :: dropInDTOs | None => dropInDTOs end.

(** Modelled from the spec: the embedded document [data/etc/config.toml] is
    not among the sources; by the spec's invariant I1 it defines a value
    for every recognised field (log level INFO, the other fields empty), so
    its overlay has the three paths present and a log level that is one of
    the four names. *)
Definition definesEveryField (d0 : configDTO) : Prop :=
  dto.CertFile d0 <> None /\ dto.KeyFile d0 <> None /\ dto.CADir d0 <> None /\
  exists v, dto.LogLevel d0 = Some v /\ levelNamed v <> None.

(** ** Documents and file systems of the examples

    The examples run the resolver on the documents of the package's tests.
    [decode_sample] answers for these documents as the decoder does, and
    rejects every other text; [join_entry] is [filepath.Join] on a clean
    directory path (with or without a final separator) and an entry name. *)

Definition dquote : string := String "034"%char EmptyString.
Definition newline : string := String "010"%char EmptyString.

(** The line [key = "value"]. *)
Definition assign (key value : string) : string :=
  key ++ " = " ++ dquote ++ value ++ dquote.

Definition doc_invalid : string := "not valid toml ===".
Definition doc_key : string := assign "key-file" "/etc/rhc/dropin.key".
Definition doc_cert : string := assign "cert-file" "/etc/rhc/main.pem".
Definition doc_cert_empty : string := assign "cert-file" EmptyString.
Definition doc_debug : string := assign "log-level" "DEBUG".
Definition doc_warn : string := assign "log-level" "WARN".
Definition doc_error : string := assign "log-level" "ERROR".
Definition doc_lower : string := assign "log-level" "debug".
Definition doc_cadir : string := assign "ca-dir" "/custom/certs".

(** A baseline that defines every field: level INFO, empty paths. *)
Definition doc_baseline : string :=
  assign "cert-file" EmptyString ++ newline ++
  assign "key-file" EmptyString ++ newline ++
  assign "log-level" "INFO" ++ newline ++
  assign "ca-dir" EmptyString ++ newline.

(** The main file of the full-stack test. *)
Definition doc_main_full : string :=
  newline ++ assign "cert-file" "/etc/rhc/main.pem" ++ newline ++
  assign "log-level" "INFO" ++ newline ++
  assign "ca-dir" "/etc/pki/tls/certs" ++ newline.

(** A baseline that leaves the paths out. *)
Definition doc_level_only : string := assign "log-level" "INFO".

(** The overlay of [doc_baseline]. *)
Definition baselineDTO : configDTO :=
  dto.mk (Some EmptyString) (Some EmptyString) (Some "INFO"%string) (Some EmptyString).

Definition sample_table : list (string * configDTO) :=
  [ (EmptyString, emptyDTO);
    (doc_key, dto.mk None (Some "/etc/rhc/dropin.key"%string) None None);
    (doc_cert, dto.mk (Some "/etc/rhc/main.pem"%string) None None None);
    (doc_cert_empty, dto.mk (Some EmptyString) None None None);
    (doc_debug, dto.mk None None (Some "DEBUG"%string) None);
    (doc_warn, dto.mk None None (Some "WARN"%string) None);
    (doc_error, dto.mk None None (Some "ERROR"%string) None);
    (doc_lower, dto.mk None None (Some "debug"%string) None);
    (doc_cadir, dto.mk None None None (Some "/custom/certs"%string));
    (doc_level_only, dto.mk None None (Some "INFO"%string) None);
    (doc_main_full,
     dto.mk (Some "/etc/rhc/main.pem"%string) None (Some "INFO"%string)
       (Some "/etc/pki/tls/certs"%string));
    (doc_baseline, baselineDTO) ].

(** The decoder's error on a text it rejects. *)
Definition decodeFailure : error := DecodeError "toml: cannot decode document".

Definition decode_sample (data : string) : result configDTO :=
  match lookup data sample_table with
  | Some d => Ok d
  | None => Err decodeFailure
  end.

Definition join_entry (dir name : string) : string :=
  if HasSuffix dir "/" then dir ++ name else dir ++ "/" ++ name.

(** A file system given by its regular files and its directories. *)
Definition memfs (files : list (string * string))
    (dirs : list (string * list DirEntry)) : FileSystem :=
  {| ReadFile := fun p =>
       match lookup p files with
       | Some data => Ok data
       | None =>
           match lookup p dirs with
           | Some _ => Err (PathError "read" p EISDIR)
           | None => Err (PathError "open" p ENOENT)
           end
       end;
     Stat := fun p =>
       match lookup p files, lookup p dirs with
       | None, None => Some (PathError "stat" p ENOENT)
       | _, _ => None
       end;
     ReadDir := fun p =>
       match lookup p dirs with
       | Some entries => Ok entries
       | None =>
           match lookup p files with
           | Some _ => Err (PathError "readdirent" p ENOTDIR)
           | None => Err (PathError "open" p ENOENT)
           end
       end |}.

Definition dropin (name : string) : string := "/etc/rhc/config.toml.d/" ++ name.

(** Neither the main file nor the drop-in directory exists. *)
Definition fs_bare : FileSystem := memfs [] [].

(** A valid [10-ok.toml], a malformed [20-bad.toml] and a valid
    [30-late.toml]. *)
Definition failLoudEntries : list DirEntry :=
  [ mkEntry "10-ok.toml" false; mkEntry "20-bad.toml" false;
    mkEntry "30-late.toml" false ].

Definition fs_fail_loud : FileSystem :=
  memfs
    [ (dropin "10-ok.toml", doc_key);
      (dropin "20-bad.toml", doc_invalid);
      (dropin "30-late.toml", doc_cadir) ]
    [ ("/etc/rhc/config.toml.d/"%string, failLoudEntries) ].

(** A malformed main file next to a valid drop-in. *)
Definition fs_bad_main : FileSystem :=
  memfs
    [ ("/etc/rhc/config.toml"%string, doc_invalid);
      (dropin "10-key.toml", doc_key) ]
    [ ("/etc/rhc/config.toml.d/"%string, [ mkEntry "10-key.toml" false ]) ].

(** A valid main file and a malformed drop-in. *)
Definition fs_main_then_bad : FileSystem :=
  memfs
    [ ("/etc/rhc/config.toml"%string, doc_cert);
      (dropin "20-bad.toml", doc_invalid) ]
    [ ("/etc/rhc/config.toml.d/"%string, [ mkEntry "20-bad.toml" false ]) ].

(** Two drop-ins that both set the log level, next to a subdirectory and a
    file of another extension. *)
Definition shadowEntries : list DirEntry :=
  [ mkEntry "20-second.toml" false; mkEntry "README" false;
    mkEntry "old.toml" true; mkEntry "10-first.toml" false ].

Definition fs_shadow (first second : string) : FileSystem :=
  memfs
    [ (dropin "10-first.toml", first);
      (dropin "20-second.toml", second);
      (dropin "README", doc_invalid) ]
    [ ("/etc/rhc/config.toml.d/"%string, shadowEntries) ].

(** The full-stack test: a main file and three drop-ins, listed out of
    order. *)
Definition fs_full_stack : FileSystem :=
  memfs
    [ ("/etc/rhc/config.toml"%string, doc_main_full);
      (dropin "10-key.toml", doc_key);
      (dropin "20-debug.toml", doc_debug);
      (dropin "30-cadir.toml", doc_cadir) ]
    [ ("/etc/rhc/config.toml.d/"%string,
       [ mkEntry "30-cadir.toml" false; mkEntry "10-key.toml" false;
         mkEntry "20-debug.toml" false ]) ].

(** A drop-in that sets cert-file to the empty string over a main file
    that sets it to a path. *)
Definition fs_empty_overwrite : FileSystem :=
  memfs
    [ ("/etc/rhc/config.toml"%string, doc_cert);
      (dropin "10-override.toml", doc_cert_empty) ]
    [ ("/etc/rhc/config.toml.d/"%string, [ mkEntry "10-override.toml" false ]) ].

(** A main file whose log level is spelled in lower case. *)
Definition fs_lower_main : FileSystem :=
  memfs [ ("/etc/rhc/config.toml"%string, doc_lower) ] [].

(** ** Vocabulary of further laws of the merge and the resolver *)

(** A level that has one of the four names. *)
Definition namedLevel (l : slog.Level) : Prop :=
  l = slog.LevelDebug \/ l = slog.LevelInfo \/ l = slog.LevelWarn \/ l = slog.LevelError.

(** Whether an overlay has the field [f]. *)
Definition present (f : field) (d : configDTO) : bool :=
  match overlay d f with
  | Some _ => true
  | None => false
  end.

(** What the last overlay of [ds] that has the field [f] says about it. *)
Definition lastPresent (f : field) (ds : list configDTO) : option string :=
  match find (present f) (rev ds) with
  | Some d => overlay d f
  | None => None
  end.

(** The level an overlay sets: its log level, when it is one of the four
    names. *)
Definition levelSet (d : configDTO) : option slog.Level :=
  match dto.LogLevel d with
  | Some v => levelNamed v
  | None => None
  end.

(** The level set by the last overlay of [ds] that sets one. *)
Definition lastLevel (ds : list configDTO) : option slog.Level :=
  match find (fun d => match levelSet d with Some _ => true | None => false end)
          (rev ds) with
  | Some d => levelSet d
  | None => None
  end.

(** Two overlays that have no field in common. *)
Definition disjointOverlays (d1 d2 : configDTO) : Prop :=
  forall f, overlay d1 f = None \/ overlay d2 f = None.

(** The overlay [d2] has every field that [d1] has, and its log level, when
    [d1] has one, is one of the four names. *)
Definition covers (d2 d1 : configDTO) : Prop :=
  (forall f, overlay d1 f <> None -> overlay d2 f <> None) /\
  (dto.LogLevel d1 <> None ->
   exists v, dto.LogLevel d2 = Some v /\ levelNamed v <> None).

(** ** Package logging *)

Module logging.

(** [type LogMessage struct]; the message is kept as its text. *)
Record LogMessage : Type := mkLogMessage {
  Level : slog.Level;
  Message : string
}.

(** [func HasPriorityErrors]: the map is given as the sequence in which
    [range] visits its entries, an order that Go leaves open. *)
Fixpoint HasPriorityErrors (errorMessages : list (string * LogMessage))
    (level : slog.Level) : bool :=
  match errorMessages with
  | [] => false
  | (_, logMsg) :: rest =>
      if level <=? Level logMsg then true else HasPriorityErrors rest level
  end.

End logging.

(** ** Package interactive *)

Module cli.

(** [*cli.Context], as far as it is asked: boolean and string flags by
    name. *)
Record Context : Type := mkContext {
  Bool : string -> bool;
  String : string -> string
}.

(** The error of [cli.Exit(message, exitCode)]. *)
Record ExitError : Type := Exit {
  exitMessage : string;
  exitCode : Z
}.

End cli.

Module interactive.

Definition escape : string := String "027"%char EmptyString.
Definition ColorGreen : string := escape ++ "[32m".
Definition ColorYellow : string := escape ++ "[33m".
Definition ColorRed : string := escape ++ "[31m".
Definition ColorReset : string := escape ++ "[0m".

(** The three symbols, as their UTF-8 bytes. *)
Definition SymbolOK : string :=
  String "226"%char (String "156"%char (String "147"%char EmptyString)).
Definition SymbolInfo : string :=
  String "226"%char (String "151"%char (String "143"%char EmptyString)).
Definition SymbolError : string :=
  String "240"%char (String "144"%char (String "132"%char (String "130"%char EmptyString))).

(** [type UserInterfaceSettings struct]. *)
Record UserInterfaceSettings : Type := mkSettings {
  IsMachineReadable : bool;
  IsRich : bool;
  IconOK : string;
  IconInfo : string;
  IconError : string
}.

(** [func ConfigureUISettings(ctx *cli.Context) UserInterfaceSettings]. *)
Definition ConfigureUISettings (ctx : cli.Context) : UserInterfaceSettings :=
  if cli.Bool ctx "no-color"
  then {| IsRich := false; IsMachineReadable := false;
          IconOK := SymbolOK; IconInfo := SymbolInfo; IconError := SymbolError |}
  else {| IsRich := true; IsMachineReadable := false;
          IconOK := ColorGreen ++ SymbolOK ++ ColorReset;
          IconInfo := ColorYellow ++ SymbolInfo ++ ColorReset;
          IconError := ColorRed ++ SymbolError ++ ColorReset |}.

(** [func SetupFormatOption(ctx, uiSettings *UserInterfaceSettings,
    exitCodeDataErr int) error]: the settings after the call and the error
    returned. *)
Definition SetupFormatOption (ctx : cli.Context) (uiSettings : UserInterfaceSettings)
    (exitCodeDataErr : Z) : UserInterfaceSettings * option cli.ExitError :=
  let format := cli.String ctx "format" in
  if (format =? EmptyString)%string then (uiSettings, None)
  else if (format =? "json")%string
  then ({| IsMachineReadable := true; IsRich := false;
           IconOK := IconOK uiSettings; IconInfo := IconInfo uiSettings;
           IconError := IconError uiSettings |}, None)
  else (uiSettings,
        Some (cli.Exit
                ("unsupported format: " ++ format ++ " (supported formats: "
                 ++ String "034"%char ("json" ++ String "034"%char ")"))
                exitCodeDataErr)).

(** [func ShowErrorMessages]: the error returned; the table written to the
    standard output is left out.  [globalLevel] is [config.Global.LogLevel]. *)
Definition ShowErrorMessages (globalLevel : slog.Level)
    (errorMessages : list (string * logging.LogMessage))
    (uiSettings : UserInterfaceSettings) : option cli.ExitError :=
  if logging.HasPriorityErrors errorMessages globalLevel
  then
    if negb (IsMachineReadable uiSettings)
    then
      if logging.HasPriorityErrors errorMessages slog.LevelError
      then Some (cli.Exit EmptyString 1)
      else None
    else None
  else None.

End interactive.

(** ** More file systems of the examples *)

(** The main file exists but may not be read. *)
Definition fs_main_denied : FileSystem :=
  {| ReadFile := fun p =>
       if (p =? "/etc/rhc/config.toml")%string
       then Err (PathError "open" p EACCES)
       else ReadFile fs_fail_loud p;
     Stat := Stat fs_fail_loud;
     ReadDir := ReadDir fs_fail_loud |}.

(** The drop-in directory exists but may not be listed. *)
Definition fs_dir_denied : FileSystem :=
  {| ReadFile := ReadFile fs_lower_main;
     Stat := fun _ => None;
     ReadDir := fun p => Err (PathError "open" p EACCES) |}.

(** A listed drop-in that may not be read, after a valid one. *)
Definition fs_dropin_denied : FileSystem :=
  {| ReadFile := fun p =>
       if (p =? dropin "20-second.toml")%string
       then Err (PathError "open" p EACCES)
       else ReadFile (fs_shadow doc_warn doc_debug) p;
     Stat := Stat (fs_shadow doc_warn doc_debug);
     ReadDir := ReadDir (fs_shadow doc_warn doc_debug) |}.

(** The directory of [fs_shadow], listed in another order. *)
Definition fs_shadow_relisted (first second : string) : FileSystem :=
  {| ReadFile := ReadFile (fs_shadow first second);
     Stat := Stat (fs_shadow first second);
     ReadDir := fun p =>
       if (p =? "/etc/rhc/config.toml.d/")%string then Ok (rev shadowEntries)
       else ReadDir (fs_shadow first second) p |}.

(** A drop-in directory that holds a subdirectory and a file of another
    extension only. *)
Definition fs_no_overrides : FileSystem :=
  memfs
    [ ("/etc/rhc/config.toml"%string, doc_cert);
      (dropin "README", doc_invalid) ]
    [ ("/etc/rhc/config.toml.d/"%string,
       [ mkEntry "README" false; mkEntry "old.toml" true ]) ].

(** The messages of a run: a warning from one step, an error from another. *)
Definition sampleMessages : list (string * logging.LogMessage) :=
  [ ("rhsm"%string, logging.mkLogMessage slog.LevelWarn "cannot connect");
    ("insights"%string, logging.mkLogMessage slog.LevelError "exit status 1") ].

(** A command line with [--format json] and colours allowed. *)
Definition ctx_json : cli.Context :=
  {| cli.Bool := fun _ => false;
     cli.String := fun name => if (name =? "format")%string then "json"%string else EmptyString |}.

(** A command line with an unsupported [--format]. *)
Definition ctx_yaml : cli.Context :=
  {| cli.Bool := fun _ => false;
     cli.String := fun name => if (name =? "format")%string then "yaml"%string else EmptyString |}.

(** * Properties *)

(** ** Byte-wise order on strings and [sort.Strings] *)

Lemma compare_refl (s : string) : String.compare s s = Eq.
Proof.
  induction s as [|a s IH]; simpl; [reflexivity |].
  unfold Ascii.compare. now rewrite N.compare_refl.
Qed.

Lemma compare_lt_trans (a b c : string) :
  String.compare a b = Lt -> String.compare b c = Lt -> String.compare a c = Lt.
Proof.
  revert b c. induction a as [|x a IH]; intros [|y b] [|z c]; simpl;
    try discriminate; auto.
  unfold Ascii.compare.
  destruct (N.compare_spec (N_of_ascii x) (N_of_ascii y)) as [Exy|Lxy|Gxy];
    try discriminate;
    destruct (N.compare_spec (N_of_ascii y) (N_of_ascii z)) as [Eyz|Lyz|Gyz];
    try discriminate; intros H1 H2.
  - rewrite Exy, Eyz, N.compare_refl. eauto.
  - replace (N_of_ascii x ?= N_of_ascii z)%N with Lt; [reflexivity |].
    symmetry. apply N.compare_lt_iff. lia.
  - replace (N_of_ascii x ?= N_of_ascii z)%N with Lt; [reflexivity |].
    symmetry. apply N.compare_lt_iff. lia.
  - replace (N_of_ascii x ?= N_of_ascii z)%N with Lt; [reflexivity |].
    symmetry. apply N.compare_lt_iff. lia.
Qed.

Lemma str_le_cases (a b : string) : str_le a b <-> str_lt a b \/ a = b.
Proof.
  unfold str_le, str_lt, String.leb. split.
  - destruct (String.compare a b) eqn:E; try discriminate; auto.
    right. now apply String.compare_eq_iff.
  - intros [-> | ->]; [reflexivity | now rewrite compare_refl].
Qed.

Lemma str_le_trans (a b c : string) : str_le a b -> str_le b c -> str_le a c.
Proof.
  rewrite !str_le_cases. intros [Hab | ->] [Hbc | ->]; auto.
  left. eapply compare_lt_trans; eassumption.
Qed.

Lemma str_lt_not_ge (a b : string) : str_lt a b -> String.leb b a = false.
Proof.
  unfold str_lt, String.leb. intros H.
  rewrite String.compare_antisym, H. reflexivity.
Qed.

Lemma str_lt_le (a b : string) : str_lt a b -> String.leb a b = true.
Proof.
  unfold str_lt, String.leb. now intros ->.
Qed.

(** A common prefix does not take part in the comparison. *)
Lemma compare_app_prefix (p a b : string) :
  String.compare (p ++ a) (p ++ b) = String.compare a b.
Proof.
  induction p as [|x p IH]; simpl; [reflexivity |].
  unfold Ascii.compare. now rewrite N.compare_refl.
Qed.

Lemma insert_sorted_perm (x : string) (l : list string) :
  Permutation (x :: l) (insert_sorted x l).
Proof.
  induction l as [|y l IH]; simpl; [reflexivity |].
  destruct (String.leb x y); [reflexivity |].
  rewrite perm_swap. now constructor.
Qed.

(** [sort.Strings] keeps the elements and their multiplicity, *)
Lemma sort_Strings_perm (l : list string) : Permutation l (sort_Strings l).
Proof.
  induction l as [|x l IH]; simpl; [constructor |].
  rewrite <- insert_sorted_perm. now constructor.
Qed.

Lemma insert_sorted_Sorted (x : string) (l : list string) :
  Sorted str_le l -> Sorted str_le (insert_sorted x l).
Proof.
  induction 1 as [|y l Hs IH Hhd]; simpl; [repeat constructor |].
  destruct (String.leb x y) eqn:E.
  - repeat constructor; assumption.
  - constructor; [assumption |].
    assert (Hyx : str_le y x).
    { destruct (String.leb_total x y) as [H|H]; [congruence | exact H]. }
    destruct Hhd as [|z l Hyz]; simpl; [repeat constructor; assumption |].
    destruct (String.leb x z); constructor; assumption.
Qed.

(** and puts them in ascending order. *)
Lemma sort_Strings_sorted (l : list string) : StronglySorted str_le (sort_Strings l).
Proof.
  apply Sorted_StronglySorted.
  - intros a b c. apply str_le_trans.
  - induction l as [|x l IH]; simpl; [constructor |].
    now apply insert_sorted_Sorted.
Qed.

(** ** The merge [Update], field by field *)

Lemma Config_ext (c1 c2 : Config) :
  CADir c1 = CADir c2 -> CertFile c1 = CertFile c2 ->
  KeyFile c1 = KeyFile c2 -> LogLevel c1 = LogLevel c2 -> c1 = c2.
Proof.
  destruct c1, c2; simpl; intros; subst; reflexivity.
Qed.

Lemma CertFile_Update (c : Config) (d : configDTO) :
  CertFile (Update c d) =
  match dto.CertFile d with Some v => v | None => CertFile c end.
Proof.
  unfold Update.
  destruct (dto.CertFile d), (dto.KeyFile d), (dto.LogLevel d) as [v|], (dto.CADir d);
    simpl; try reflexivity;
    repeat (match goal with |- context [if ?b then _ else _] => destruct b end);
    reflexivity.
Qed.

Lemma KeyFile_Update (c : Config) (d : configDTO) :
  KeyFile (Update c d) =
  match dto.KeyFile d with Some v => v | None => KeyFile c end.
Proof.
  unfold Update.
  destruct (dto.CertFile d), (dto.KeyFile d), (dto.LogLevel d) as [v|], (dto.CADir d);
    simpl; try reflexivity;
    repeat (match goal with |- context [if ?b then _ else _] => destruct b end);
    reflexivity.
Qed.

Lemma CADir_Update (c : Config) (d : configDTO) :
  CADir (Update c d) =
  match dto.CADir d with Some v => v | None => CADir c end.
Proof.
  unfold Update.
  destruct (dto.CertFile d), (dto.KeyFile d), (dto.LogLevel d) as [v|], (dto.CADir d);
    simpl; try reflexivity;
    repeat (match goal with |- context [if ?b then _ else _] => destruct b end);
    reflexivity.
Qed.

(** The [switch] of [Update] agrees with the table of level names. *)
Lemma LogLevel_Update (c : Config) (d : configDTO) :
  LogLevel (Update c d) =
  match dto.LogLevel d with
  | Some v => match levelNamed v with Some l => l | None => LogLevel c end
  | None => LogLevel c
  end.
Proof.
  unfold Update, levelNamed, levelNames, lookup.
  destruct (dto.CertFile d), (dto.KeyFile d), (dto.LogLevel d) as [v|], (dto.CADir d);
    simpl; try reflexivity;
    repeat (match goal with |- context [if ?b then _ else _] => destruct b end);
    reflexivity.
Qed.

(** A name outside the four denotes no level. *)
Lemma levelNamed_None (v : string) :
  v <> "DEBUG"%string -> v <> "INFO"%string ->
  v <> "WARN"%string -> v <> "ERROR"%string -> levelNamed v = None.
Proof.
  intros H1 H2 H3 H4. unfold levelNamed, levelNames, lookup.
  apply String.eqb_neq in H1, H2, H3, H4.
  rewrite H1, H2, H3, H4. reflexivity.
Qed.

Lemma levelNamed_Some (v : string) (l : slog.Level) :
  levelNamed v = Some l ->
  (v = "DEBUG"%string /\ l = slog.LevelDebug) \/
  (v = "INFO"%string /\ l = slog.LevelInfo) \/
  (v = "WARN"%string /\ l = slog.LevelWarn) \/
  (v = "ERROR"%string /\ l = slog.LevelError).
Proof.
  unfold levelNamed, levelNames, lookup.
  destruct (String.eqb_spec v "DEBUG"); [intros [= <-]; auto |].
  destruct (String.eqb_spec v "INFO"); [intros [= <-]; auto |].
  destruct (String.eqb_spec v "WARN"); [intros [= <-]; auto |].
  destruct (String.eqb_spec v "ERROR"); [intros [= <-]; auto 6 |].
  discriminate.
Qed.

(** [field_is] only looks at the field it names. *)
Lemma field_is_get (c c' : Config) (f : field) (v : string) :
  get c' f = get c f -> field_is c f v -> field_is c' f v.
Proof.
  destruct f; simpl; intros [= E] H; congruence.
Qed.

(** C4.  Presence law: a field that the overlay leaves absent keeps its
    prior value under [Update], whatever that value is (the zero value
    included); so a field can only change when the overlay has it. *)
Theorem Update_absent_field_unchanged (c : Config) (d : configDTO) (f : field) :
  overlay d f = None -> get (Update c d) f = get c f.
Proof.
  destruct f; simpl; intros H.
  - now rewrite CertFile_Update, H.
  - now rewrite KeyFile_Update, H.
  - now rewrite LogLevel_Update, H.
  - now rewrite CADir_Update, H.
Qed.

Lemma Update_absent_field_unchanged_witness :
  overlay (dto.mk None None (Some "DEBUG"%string) None) FCertFile = None /\
  get (Update zeroConfig (dto.mk None None (Some "DEBUG"%string) None)) FCertFile
  = get zeroConfig FCertFile.
Proof.
  split; [reflexivity |].
  apply (Update_absent_field_unchanged zeroConfig
           (dto.mk None None (Some "DEBUG"%string) None) FCertFile).
  reflexivity.
Defined.

(** The overwrite law read for every field and every present value does not
    hold: a present log level that is none of the four names (here the
    empty string) leaves [LogLevel] at its prior value, so the outcome
    follows the prior value and not the overlay. *)
Lemma Update_present_not_always_set :
  overlay (dto.mk None None (Some EmptyString) None) FLogLevel = Some EmptyString /\
  ~ field_is (Update (set_LogLevel zeroConfig slog.LevelError)
                (dto.mk None None (Some EmptyString) None)) FLogLevel EmptyString /\
  LogLevel (Update (set_LogLevel zeroConfig slog.LevelError)
              (dto.mk None None (Some EmptyString) None)) = slog.LevelError /\
  LogLevel (Update (set_LogLevel zeroConfig slog.LevelDebug)
              (dto.mk None None (Some EmptyString) None)) = slog.LevelDebug.
Proof.
  repeat split; try reflexivity.
  simpl. discriminate.
Qed.

(** C5 (amended).  Overwrite law: a present cert-file, key-file or ca-dir
    with value [v], the empty string included, sets the field to exactly
    [v]; a present log level that is one of DEBUG, INFO, WARN, ERROR sets
    [LogLevel] to the level of that name; both regardless of the prior
    value. *)
Theorem Update_present_field_set (c : Config) (d : configDTO) (f : field) (v : string) :
  overlay d f = Some v ->
  (f = FLogLevel -> levelNamed v <> None) ->
  field_is (Update c d) f v.
Proof.
  destruct f; simpl; intros H Hlvl.
  - now rewrite CertFile_Update, H.
  - now rewrite KeyFile_Update, H.
  - rewrite LogLevel_Update, H.
    destruct (levelNamed v); [reflexivity | now elim Hlvl].
  - now rewrite CADir_Update, H.
Qed.

Lemma Update_present_field_set_witness :
  field_is (Update (set_CertFile zeroConfig "/etc/rhc/main.pem")
              (dto.mk (Some EmptyString) None (Some "WARN"%string) None))
    FCertFile EmptyString /\
  field_is (Update (set_CertFile zeroConfig "/etc/rhc/main.pem")
              (dto.mk (Some EmptyString) None (Some "WARN"%string) None))
    FLogLevel "WARN".
Proof.
  split.
  - apply (Update_present_field_set (set_CertFile zeroConfig "/etc/rhc/main.pem")
             (dto.mk (Some EmptyString) None (Some "WARN"%string) None)
             FCertFile EmptyString).
    + reflexivity.
    + discriminate.
  - apply (Update_present_field_set (set_CertFile zeroConfig "/etc/rhc/main.pem")
             (dto.mk (Some EmptyString) None (Some "WARN"%string) None)
             FLogLevel "WARN").
    + reflexivity.
    + intros _. vm_compute. discriminate.
Defined.

(** C10.  [Update] is idempotent: applying the same overlay a second time
    changes nothing. *)
Theorem Update_idempotent (c : Config) (d : configDTO) :
  Update (Update c d) d = Update c d.
Proof.
  apply Config_ext.
  - rewrite CADir_Update. now destruct (dto.CADir d) eqn:E; rewrite CADir_Update, E.
  - rewrite CertFile_Update.
    now destruct (dto.CertFile d) eqn:E; rewrite CertFile_Update, E.
  - rewrite KeyFile_Update.
    now destruct (dto.KeyFile d) eqn:E; rewrite KeyFile_Update, E.
  - rewrite LogLevel_Update.
    destruct (dto.LogLevel d) as [v|] eqn:E; [| reflexivity].
    destruct (levelNamed v) eqn:El; [| reflexivity].
    now rewrite LogLevel_Update, E, El.
Qed.

(** ** Lists *)

Lemma StronglySorted_after {A : Type} (R : A -> A -> Prop) (l1 l2 : list A) (x : A) :
  StronglySorted R (l1 ++ x :: l2) -> Forall (R x) l2.
Proof.
  induction l1 as [|y l1 IH]; simpl; intros H; inversion H; subst; auto.
Qed.

Lemma Forall2_total {A B : Type} (R : A -> B -> Prop) (l : list A) :
  (forall x, In x l -> exists y, R x y) -> exists ys, Forall2 R l ys.
Proof.
  induction l as [|x l IH]; intros H.
  - exists []. constructor.
  - destruct (H x (or_introl eq_refl)) as [y Hy].
    destruct IH as [ys Hys]; [intros z Hz; apply H; now right |].
    exists (y :: ys). now constructor.
Qed.

Lemma Forall2_Forall_r {A B : Type} (R : A -> B -> Prop) (P : B -> Prop)
    (l : list A) (ys : list B) :
  Forall2 R l ys -> (forall x y, In x l -> R x y -> P y) -> Forall P ys.
Proof.
  induction 1 as [|x y l ys Hxy _ IH]; intros H; constructor.
  - apply (H x y); [now left | assumption].
  - apply IH. intros x' y' Hin. apply H. now right.
Qed.

Lemma Forall2_In_l {A B : Type} (R : A -> B -> Prop) (l : list A) (ys : list B)
    (x : A) :
  Forall2 R l ys -> In x l -> exists y, In y ys /\ R x y.
Proof.
  induction 1 as [|x' y l ys Hxy _ IH]; intros Hin; [contradiction |].
  destruct Hin as [-> | Hin].
  - exists y. split; [now left | assumption].
  - destruct (IH Hin) as (y' & Hy' & HR). exists y'. split; [now right | assumption].
Qed.

(** An overlay that has the field with value [v], or lacks it while the
    field already is [v], leaves the field at [v]. *)
Lemma Update_field_is (c : Config) (d : configDTO) (f : field) (v : string) :
  (f = FLogLevel -> levelNamed v <> None) ->
  overlay d f = Some v \/ (overlay d f = None /\ field_is c f v) ->
  field_is (Update c d) f v.
Proof.
  intros Hlvl H. destruct f; simpl in *.
  - rewrite CertFile_Update. now destruct H as [-> | [-> ?]].
  - rewrite KeyFile_Update. now destruct H as [-> | [-> ?]].
  - rewrite LogLevel_Update. destruct H as [-> | [-> ?]]; [| assumption].
    destruct (levelNamed v); [reflexivity | now elim Hlvl].
  - rewrite CADir_Update. now destruct H as [-> | [-> ?]].
Qed.

Lemma fold_Update_field_is (ds : list configDTO) (c : Config) (f : field) (v : string) :
  (f = FLogLevel -> levelNamed v <> None) ->
  field_is c f v ->
  Forall (fun d => overlay d f = None \/ overlay d f = Some v) ds ->
  field_is (fold_left Update ds c) f v.
Proof.
  intros Hlvl Hc Hds. revert c Hc.
  induction Hds as [|d ds Hd _ IH]; intros c Hc; simpl; [assumption |].
  apply IH. apply Update_field_is; [assumption |].
  destruct Hd; auto.
Qed.

(** ** Discovery and loading of the drop-in files *)

Section ResolverLaws.

Variable toml_Unmarshal : string -> result configDTO.
Variable filepath_Join : string -> string -> string.
Variable defaultConfig : string.
Variable fs : FileSystem.

Local Abbreviation parseConfigDTO := (parseConfigDTO toml_Unmarshal).
Local Abbreviation collectFilenames := (collectFilenames filepath_Join).
Local Abbreviation findDropInFiles := (findDropInFiles filepath_Join fs).
Local Abbreviation loadEach := (loadEach toml_Unmarshal fs).
Local Abbreviation parseDropInFiles := (parseDropInFiles toml_Unmarshal filepath_Join fs).
Local Abbreviation applyDropIns := (applyDropIns toml_Unmarshal filepath_Join fs).
Local Abbreviation Read := (Read toml_Unmarshal filepath_Join defaultConfig fs).
Local Abbreviation init := (init toml_Unmarshal filepath_Join defaultConfig fs).
Local Abbreviation loadsTo := (loadsTo toml_Unmarshal fs).
Local Abbreviation fileMissing := (fileMissing fs).
Local Abbreviation mainStage := (mainStage toml_Unmarshal fs).
Local Abbreviation dirMissing := (dirMissing fs).
Local Abbreviation dirLists := (dirLists fs).
Local Abbreviation overrideLoads := (overrideLoads toml_Unmarshal filepath_Join fs).

Lemma parseConfigDTO_Ok (data : string) (d : configDTO) :
  parseConfigDTO data = Ok d <-> toml_Unmarshal data = Ok d.
Proof.
  unfold parseConfigDTO.
  destruct (toml_Unmarshal data); split; congruence.
Qed.

Lemma parseConfigDTO_Err (data : string) (e : error) :
  toml_Unmarshal data = Err e ->
  parseConfigDTO data = Err (Errorf "failed to parse TOML" e).
Proof.
  unfold parseConfigDTO. now intros ->.
Qed.

Lemma loadsTo_functional (path : string) (d d' : configDTO) :
  loadsTo path d -> loadsTo path d' -> d = d'.
Proof.
  intros (data & Hr & Hp) (data' & Hr' & Hp'). congruence.
Qed.

(** The collecting loop appends the joined names of the override files. *)
Lemma collectFilenames_spec (dir : string) (entries : list DirEntry)
    (filenames : list string) :
  collectFilenames dir entries filenames
  = (filenames ++ map (filepath_Join dir) (overrideNames entries))%list.
Proof.
  revert filenames. unfold overrideNames.
  induction entries as [|entry rest IH]; intros filenames; simpl.
  - now rewrite app_nil_r.
  - destruct (IsDir entry); simpl; [apply IH |].
    destruct (HasSuffix (Name entry) ".toml"); simpl; [| apply IH].
    rewrite IH, <- app_assoc. reflexivity.
Qed.

Lemma findDropInFiles_missing (cs : ConfigSource) :
  dirMissing cs -> findDropInFiles cs = Ok [].
Proof.
  intros (e & Hs & He). unfold findDropInFiles.
  now rewrite Hs, He.
Qed.

Lemma findDropInFiles_lists (cs : ConfigSource) (entries : list DirEntry) :
  dirLists cs entries ->
  findDropInFiles cs
  = Ok (sort_Strings (map (filepath_Join (DropInDir cs)) (overrideNames entries))).
Proof.
  intros [Hs Hd]. unfold findDropInFiles.
  rewrite Hd, collectFilenames_spec. simpl.
  destruct (Stat fs (DropInDir cs)) as [e|]; [| reflexivity].
  now rewrite (Hs e eq_refl).
Qed.

(** When every file loads, the loop returns the overlays in path order. *)
Lemma loadEach_ok (paths : list string) (ds dtos : list configDTO) :
  Forall2 loadsTo paths ds -> loadEach paths dtos = Ok (dtos ++ ds)%list.
Proof.
  intros H. revert dtos.
  induction H as [|path d paths ds (data & Hr & Hp) _ IH]; intros dtos; simpl.
  - now rewrite app_nil_r.
  - rewrite Hr, Hp, IH, <- app_assoc. reflexivity.
Qed.

(** One malformed file among the paths makes the whole loop fail. *)
Lemma loadEach_malformed (paths : list string) (dtos : list configDTO)
    (bad data : string) (e : error) :
  In bad paths -> ReadFile fs bad = Ok data -> toml_Unmarshal data = Err e ->
  exists err, loadEach paths dtos = Err err.
Proof.
  intros Hin Hr He. revert dtos.
  induction paths as [|path rest IH]; intros dtos; [contradiction |].
  simpl. destruct (ReadFile fs path) as [data'|e'] eqn:Hr'; [| eauto].
  destruct (parseConfigDTO data') as [d|e''] eqn:Hp; [| eauto].
  destruct Hin as [-> | Hin]; [| now apply IH].
  exfalso. rewrite Hr in Hr'. injection Hr' as <-.
  apply parseConfigDTO_Ok in Hp. congruence.
Qed.

(** Up to the drop-in stage, [Read] computes [afterMain]. *)
Lemma Read_after_main (cs : ConfigSource) (d0 : configDTO) (dm : option configDTO) :
  parseConfigDTO defaultConfig = Ok d0 -> mainStage cs dm ->
  Read cs = applyDropIns cs (afterMain d0 dm).
Proof.
  intros H0 Hm. unfold Read. rewrite H0.
  destruct dm as [d|]; simpl in Hm.
  - destruct Hm as (data & Hr & Hp). now rewrite Hr, Hp.
  - destruct Hm as (e & Hr & He). now rewrite Hr, He.
Qed.

(** When the three stages go through, [Read] folds [Update] over the
    layers in order and returns a nil error. *)
Lemma Read_layers (cs : ConfigSource) (d0 : configDTO) (dm : option configDTO)
    (dropInDTOs : list configDTO) :
  parseConfigDTO defaultConfig = Ok d0 -> mainStage cs dm ->
  parseDropInFiles cs = Ok dropInDTOs ->
  Read cs = (fold_left Update dropInDTOs (afterMain d0 dm), None).
Proof.
  intros H0 Hm Hd. rewrite (Read_after_main cs d0 dm H0 Hm).
  unfold applyDropIns. now rewrite Hd.
Qed.

(** ** The resolver [Read] and the initialiser *)

(** An overlay that defines every field fixes the whole outcome of
    [Update]. *)
Lemma Update_definesEveryField (c c' : Config) (d0 : configDTO) :
  definesEveryField d0 -> Update c d0 = Update c' d0.
Proof.
  intros (Hcert & Hkey & Hca & v & Hlvl & Hnamed).
  apply Config_ext.
  - rewrite !CADir_Update. now destruct (dto.CADir d0).
  - rewrite !CertFile_Update. now destruct (dto.CertFile d0).
  - rewrite !KeyFile_Update. now destruct (dto.KeyFile d0).
  - rewrite !LogLevel_Update, Hlvl. now destruct (levelNamed v).
Qed.

(** C7.  No-file equivalence: with no main file and no drop-in directory,
    [Read] returns a nil error and the configuration obtained by applying
    the embedded baseline alone to the zero value. *)
Theorem Read_no_files (cs : ConfigSource) (d0 : configDTO) :
  parseConfigDTO defaultConfig = Ok d0 ->
  fileMissing (Path cs) ->
  dirMissing cs ->
  Read cs = (Update zeroConfig d0, None).
Proof.
  intros H0 Hmain Hdir.
  rewrite (Read_after_main cs d0 None H0 Hmain).
  unfold applyDropIns, parseDropInFiles.
  now rewrite (findDropInFiles_missing cs Hdir).
Qed.

(** C8.  A main file that exists but does not parse stops the resolution:
    [Read] returns the parse error together with the baseline-only value,
    and no drop-in is applied, whatever the drop-in directory holds. *)
Theorem Read_main_malformed (cs : ConfigSource) (d0 : configDTO)
    (data : string) (e : error) :
  parseConfigDTO defaultConfig = Ok d0 ->
  ReadFile fs (Path cs) = Ok data ->
  parseConfigDTO data = Err e ->
  Read cs = (Update zeroConfig d0, Some (Errorf ("failed to parse " ++ Path cs) e)).
Proof.
  intros H0 Hr Hp. unfold Read. now rewrite H0, Hr, Hp.
Qed.

(** C2 (amended).  When the embedded baseline does not parse, [Read]
    returns the zero configuration with an ordinary non-nil error to its
    caller; the failure is fatal only in the package initialiser, which
    panics. *)
Theorem baseline_failure_returned_then_fatal (e : error) :
  parseConfigDTO defaultConfig = Err e ->
  (forall cs, Read cs = (zeroConfig, Some (Errorf "failed to parse embedded defaults" e))) /\
  init = Panicked ("failed to parse embedded defaults: " ++ Error e).
Proof.
  intros H0. split.
  - intros cs. unfold Read. now rewrite H0.
  - unfold init, Read. now rewrite H0.
Qed.

(** C3.  When the resolution at startup fails, the store holds exactly the
    configuration of the embedded baseline alone: the baseline defines
    every field (I1), so nothing of the main file or the drop-ins
    remains. *)
Theorem init_fallback_is_baseline (d0 : configDTO) :
  parseConfigDTO defaultConfig = Ok d0 ->
  definesEveryField d0 ->
  snd (Read defaultSources) <> None ->
  init = Installed (Update zeroConfig d0).
Proof.
  intros H0 Hall Hfail. unfold init.
  destruct (Read defaultSources) as [config [err|]]; simpl in Hfail.
  - rewrite H0. f_equal. now apply Update_definesEveryField.
  - now elim Hfail.
Qed.

(** When the directory lists [entries] and every override file among them
    loads, the drop-in stage succeeds, and the overlay of each override
    file is among the overlays it returns. *)
Lemma parseDropInFiles_loads (cs : ConfigSource) (entries : list DirEntry) :
  dirLists cs entries ->
  (forall n, In n (overrideNames entries) -> exists dn, overrideLoads cs n dn) ->
  exists ds,
    parseDropInFiles cs = Ok ds /\
    forall n d, In n (overrideNames entries) -> overrideLoads cs n d -> In d ds.
Proof.
  intros Hdir Hall. unfold overrideLoads in *.
  remember (sort_Strings (map (filepath_Join (DropInDir cs)) (overrideNames entries)))
    as paths eqn:Ep.
  destruct (Forall2_total loadsTo paths) as [ds Hds].
  { intros p Hp. subst paths.
    apply (Permutation_in _ (Permutation_sym (sort_Strings_perm _))) in Hp.
    apply in_map_iff in Hp as (n & <- & Hn). now apply Hall. }
  exists ds. split.
  - unfold parseDropInFiles.
    rewrite (findDropInFiles_lists cs entries Hdir), <- Ep.
    apply (loadEach_ok paths ds [] Hds).
  - intros n d Hn Hd.
    destruct (Forall2_In_l loadsTo paths ds (filepath_Join (DropInDir cs) n) Hds)
      as (d' & Hin & Hd').
    { subst paths. eapply Permutation_in; [apply sort_Strings_perm |].
      now apply in_map. }
    now rewrite (loadsTo_functional _ _ _ Hd Hd').
Qed.

(** C9.  A present log level that is none of DEBUG, INFO, WARN, ERROR
    leaves [LogLevel] at its prior value; [Update] has no error to signal,
    and [Read] still returns a nil error when such an overlay is what the
    baseline, the main file or one of the override files decodes to: with
    the baseline decoded, the main file missing or loaded, and the drop-in
    directory missing or listing override files that all load, [Read]
    succeeds with that overlay among the layers it applied. *)
Theorem unrecognised_level_is_ignored (c : Config) (d : configDTO) (v : string) :
  dto.LogLevel d = Some v ->
  v <> "DEBUG"%string -> v <> "INFO"%string ->
  v <> "WARN"%string -> v <> "ERROR"%string ->
  LogLevel (Update c d) = LogLevel c /\
  (forall cs d0 dm entries,
      parseConfigDTO defaultConfig = Ok d0 ->
      mainStage cs dm ->
      (dirMissing cs /\ entries = [] \/ dirLists cs entries) ->
      (forall n, In n (overrideNames entries) -> exists dn, overrideLoads cs n dn) ->
      (d = d0 \/ dm = Some d \/
       exists n, In n (overrideNames entries) /\ overrideLoads cs n d) ->
      exists ds,
        Read cs = (fold_left Update ds (afterMain d0 dm), None) /\
        In d (layers d0 dm ds)).
Proof.
  intros Hd H1 H2 H3 H4. split.
  - now rewrite LogLevel_Update, Hd, levelNamed_None.
  - intros cs d0 dm entries H0 Hm Hdir Hall Hlayer.
    assert (Hdrop : exists ds,
               parseDropInFiles cs = Ok ds /\
               forall n d', In n (overrideNames entries) ->
                            overrideLoads cs n d' -> In d' ds).
    { destruct Hdir as [[Hmiss ->] | Hlists].
      - exists []. split; [| intros n d' []].
        unfold parseDropInFiles. now rewrite (findDropInFiles_missing cs Hmiss).
      - now apply parseDropInFiles_loads. }
    destruct Hdrop as (ds & Hparse & Hin). exists ds. split.
    + now apply Read_layers.
    + unfold layers. destruct Hlayer as [-> | [-> | (n & Hn & Hload)]].
      * now left.
      * right. now left.
      * right. destruct dm; [right |]; now apply (Hin n).
Qed.

(** C1 (amended).  A malformed override file in the drop-in directory makes
    [Read] return a non-nil error together with the value resolved before
    the drop-in stage (baseline, then main file): no drop-in is applied,
    neither the valid ones sorted before the malformed file nor any one
    after it. *)
Theorem Read_malformed_dropin (cs : ConfigSource) (d0 : configDTO)
    (dm : option configDTO) (entries : list DirEntry)
    (bad data : string) (e : error) :
  parseConfigDTO defaultConfig = Ok d0 ->
  mainStage cs dm ->
  dirLists cs entries ->
  In bad (overrideNames entries) ->
  ReadFile fs (filepath_Join (DropInDir cs) bad) = Ok data ->
  toml_Unmarshal data = Err e ->
  exists err, Read cs = (afterMain d0 dm, Some err).
Proof.
  intros H0 Hm Hdir Hin Hr He.
  rewrite (Read_after_main cs d0 dm H0 Hm).
  unfold applyDropIns, parseDropInFiles.
  rewrite (findDropInFiles_lists cs entries Hdir).
  destruct (loadEach_malformed
              (sort_Strings (map (filepath_Join (DropInDir cs)) (overrideNames entries)))
              [] (filepath_Join (DropInDir cs) bad) data e) as [err Herr]; trivial.
  - eapply Permutation_in; [apply sort_Strings_perm |]. now apply in_map.
  - exists err. now rewrite Herr.
Qed.

(** The last override file, in name order, that defines a field decides
    it: when every override file of the directory loads and no file named
    after [B] defines [f], the resolved [f] is the value [B] gives. *)
Lemma Read_last_definition_wins (cs : ConfigSource) (d0 : configDTO)
    (dm : option configDTO) (entries : list DirEntry)
    (B : string) (dB : configDTO) (f : field) (vb : string) :
  parseConfigDTO defaultConfig = Ok d0 ->
  mainStage cs dm ->
  dirLists cs entries ->
  joinsByPrefix filepath_Join (DropInDir cs) (overrideNames entries) ->
  (forall n, In n (overrideNames entries) -> exists d, overrideLoads cs n d) ->
  In B (overrideNames entries) ->
  overrideLoads cs B dB ->
  overlay dB f = Some vb ->
  (f = FLogLevel -> levelNamed vb <> None) ->
  (forall n d, In n (overrideNames entries) -> str_lt B n ->
               overrideLoads cs n d -> overlay d f = None) ->
  exists c, Read cs = (c, None) /\ field_is c f vb.
Proof.
  intros H0 Hm Hdir [prefix Hpre] Hall HinB HB HvB Hlvl Hlater.
  unfold overrideLoads in *.
  remember (filepath_Join (DropInDir cs)) as J eqn:EJ.
  remember (overrideNames entries) as names eqn:En.
  remember (sort_Strings (map J names)) as paths eqn:Ep.
  assert (Hpaths : forall p, In p paths -> exists n, In n names /\ p = J n).
  { intros p Hp. subst paths.
    apply (Permutation_in _ (Permutation_sym (sort_Strings_perm _))) in Hp.
    apply in_map_iff in Hp as (n & <- & Hn). eauto. }
  destruct (Forall2_total loadsTo paths) as [ds Hds].
  { intros p Hp. destruct (Hpaths p Hp) as (n & Hn & ->). now apply Hall. }
  assert (HinJB : In (J B) paths).
  { subst paths. eapply Permutation_in; [apply sort_Strings_perm |].
    now apply in_map. }
  apply in_split in HinJB as (l1 & l2 & Hsplit).
  pose proof (sort_Strings_sorted (map J names)) as Hsorted.
  rewrite <- Ep, Hsplit in Hsorted. apply StronglySorted_after in Hsorted.
  pose proof Hds as Hds'. rewrite Hsplit in Hds'.
  apply Forall2_app_inv_l in Hds' as (ds1 & ds' & H1 & H2 & Eds).
  inversion H2 as [|p d' l ds2 HdB' Hrest]; subst p l ds'.
  assert (d' = dB) by (eapply loadsTo_functional; eassumption). subst d'.
  assert (Hds2 : Forall (fun d => overlay d f = None \/ overlay d f = Some vb) ds2).
  { apply (Forall2_Forall_r loadsTo _ l2 ds2 Hrest). intros p d Hp Hpd.
    assert (Hle : str_le (J B) p).
    { rewrite Forall_forall in Hsorted. now apply Hsorted. }
    destruct (Hpaths p) as (n & Hn & ->).
    { rewrite Hsplit. apply in_or_app. right. now right. }
    unfold str_le, String.leb in Hle.
    rewrite (Hpre B HinB), (Hpre n Hn), compare_app_prefix in Hle.
    apply str_le_cases in Hle as [Hlt | <-].
    - left. now apply (Hlater n d).
    - right. now rewrite (loadsTo_functional _ _ _ Hpd HB). }
  exists (fold_left Update ds (afterMain d0 dm)). split.
  - apply Read_layers; trivial.
    unfold parseDropInFiles.
    rewrite (findDropInFiles_lists cs entries Hdir), <- En, <- EJ, <- Ep.
    apply (loadEach_ok paths ds [] Hds).
  - rewrite Eds, fold_left_app. simpl.
    apply fold_Update_field_is; trivial.
    apply Update_field_is; auto.
Qed.

(** C6 (amended).  Ordering law: when the override files of the drop-in
    directory are [A] and [B] with [A < B] byte-wise, both load and both
    define the field [f] with different values, [Read] succeeds and the
    resolved [f] is the value of [B], for [f] one of cert-file, key-file,
    ca-dir, and for the log level when the value of [B] is one of DEBUG,
    INFO, WARN, ERROR. *)
Theorem Read_later_dropin_wins (cs : ConfigSource) (d0 : configDTO)
    (dm : option configDTO) (entries : list DirEntry)
    (A B : string) (dA dB : configDTO) (f : field) (va vb : string) :
  parseConfigDTO defaultConfig = Ok d0 ->
  mainStage cs dm ->
  dirLists cs entries ->
  joinsByPrefix filepath_Join (DropInDir cs) (overrideNames entries) ->
  (forall n, In n (overrideNames entries) <-> n = A \/ n = B) ->
  str_lt A B ->
  overrideLoads cs A dA ->
  overrideLoads cs B dB ->
  overlay dA f = Some va ->
  overlay dB f = Some vb ->
  va <> vb ->
  (f = FLogLevel -> levelNamed vb <> None) ->
  exists c, Read cs = (c, None) /\ field_is c f vb.
Proof.
  intros H0 Hm Hdir Hpre Hnames Hlt HA HB HvA HvB Hneq Hlvl.
  apply (Read_last_definition_wins cs d0 dm entries B dB f vb); trivial.
  - intros n Hn. apply Hnames in Hn as [-> | ->]; eauto.
  - apply Hnames. now right.
  - intros n d Hn HBn Hd. exfalso.
    apply Hnames in Hn as [-> | ->]; unfold str_lt in *.
    + rewrite String.compare_antisym, Hlt in HBn. discriminate.
    + rewrite compare_refl in HBn. discriminate.
Qed.

End ResolverLaws.

(** ** The laws on the documents of the tests *)

(** [TestConfigSource_FullStack], "full configuration stack". *)
Example test_full_stack :
  Read decode_sample join_entry doc_baseline fs_full_stack defaultSources
  = ({| CADir := "/custom/certs"; CertFile := "/etc/rhc/main.pem";
        KeyFile := "/etc/rhc/dropin.key"; LogLevel := slog.LevelDebug |}, None).
Proof. reflexivity. Qed.

(** [TestEmptyStringOverwrite], for cert-file. *)
Example test_empty_string_overwrite :
  Read decode_sample join_entry doc_baseline fs_empty_overwrite defaultSources
  = ({| CADir := EmptyString; CertFile := EmptyString; KeyFile := EmptyString;
        LogLevel := slog.LevelInfo |}, None).
Proof. reflexivity. Qed.

(** [TestConfigSource_MissingDropinDir] and "missing file uses defaults". *)
Example test_missing_everything :
  Read decode_sample join_entry doc_baseline fs_bare defaultSources
  = ({| CADir := EmptyString; CertFile := EmptyString; KeyFile := EmptyString;
        LogLevel := slog.LevelInfo |}, None).
Proof. reflexivity. Qed.

Lemma Read_no_files_witness :
  Read decode_sample join_entry doc_baseline fs_bare defaultSources
  = (Update zeroConfig baselineDTO, None).
Proof.
  apply (Read_no_files decode_sample join_entry doc_baseline fs_bare
           defaultSources baselineDTO).
  - reflexivity.
  - eexists. split; reflexivity.
  - eexists. split; reflexivity.
Defined.

Lemma Read_main_malformed_witness :
  Read decode_sample join_entry doc_baseline fs_bad_main defaultSources
  = (Update zeroConfig baselineDTO,
     Some (Errorf ("failed to parse " ++ Path defaultSources)
             (Errorf "failed to parse TOML" decodeFailure))).
Proof.
  apply (Read_main_malformed decode_sample join_entry doc_baseline fs_bad_main
           defaultSources baselineDTO doc_invalid
           (Errorf "failed to parse TOML" decodeFailure)).
  - reflexivity.
  - reflexivity.
  - reflexivity.
Defined.

(** A baseline failure does reach the caller of [Read] as an error value:
    with an undecodable embedded document, [Read] returns a zero
    configuration and an ordinary error. *)
Lemma Read_returns_baseline_failure :
  parseConfigDTO decode_sample doc_invalid
  = Err (Errorf "failed to parse TOML" decodeFailure) /\
  Read decode_sample join_entry doc_invalid fs_bare defaultSources
  = (zeroConfig,
     Some (Errorf "failed to parse embedded defaults"
             (Errorf "failed to parse TOML" decodeFailure))).
Proof.
  split; reflexivity.
Qed.

Lemma baseline_failure_returned_then_fatal_witness :
  (forall cs,
      Read decode_sample join_entry doc_invalid fs_main_then_bad cs
      = (zeroConfig,
         Some (Errorf "failed to parse embedded defaults"
                 (Errorf "failed to parse TOML" decodeFailure)))) /\
  init decode_sample join_entry doc_invalid fs_main_then_bad
  = Panicked ("failed to parse embedded defaults: "
              ++ Error (Errorf "failed to parse TOML" decodeFailure)).
Proof.
  apply (baseline_failure_returned_then_fatal decode_sample join_entry
           doc_invalid fs_main_then_bad
           (Errorf "failed to parse TOML" decodeFailure)).
  reflexivity.
Defined.

Lemma baselineDTO_definesEveryField : definesEveryField baselineDTO.
Proof.
  repeat split; try discriminate.
  exists "INFO"%string. split; [reflexivity | discriminate].
Defined.

Lemma init_fallback_is_baseline_witness :
  init decode_sample join_entry doc_baseline fs_main_then_bad
  = Installed (Update zeroConfig baselineDTO).
Proof.
  apply (init_fallback_is_baseline decode_sample join_entry doc_baseline
           fs_main_then_bad baselineDTO).
  - reflexivity.
  - exact baselineDTO_definesEveryField.
  - vm_compute. discriminate.
Defined.

(** The hypothesis on the embedded document matters: after a failure the
    initialiser applies the baseline over the partly resolved value, so
    with a baseline that leaves cert-file out the value of the main file
    stays. *)
Example init_fallback_partial_baseline :
  init decode_sample join_entry doc_level_only fs_main_then_bad
  = Installed (set_CertFile zeroConfig "/etc/rhc/main.pem").
Proof. reflexivity. Qed.

Lemma unrecognised_level_is_ignored_witness :
  LogLevel (Update (set_LogLevel zeroConfig slog.LevelWarn)
              (dto.mk None None (Some "debug"%string) None))
  = slog.LevelWarn /\
  exists ds,
    Read decode_sample join_entry doc_baseline (fs_shadow doc_debug doc_lower)
      defaultSources
    = (fold_left Update ds (afterMain baselineDTO None), None) /\
    In (dto.mk None None (Some "debug"%string) None) (layers baselineDTO None ds).
Proof.
  destruct (unrecognised_level_is_ignored decode_sample join_entry doc_baseline
              (fs_shadow doc_debug doc_lower)
              (set_LogLevel zeroConfig slog.LevelWarn)
              (dto.mk None None (Some "debug"%string) None) "debug"%string)
    as [Hkeep Hread]; try discriminate; try reflexivity.
  split; [exact Hkeep |].
  apply (Hread defaultSources baselineDTO None shadowEntries).
  - reflexivity.
  - eexists. split; reflexivity.
  - right. split; [intros e H; vm_compute in H; discriminate | reflexivity].
  - intros n Hn. vm_compute in Hn. destruct Hn as [<- | [<- | []]].
    + exists (dto.mk None None (Some "debug"%string) None), doc_lower.
      split; reflexivity.
    + exists (dto.mk None None (Some "DEBUG"%string) None), doc_debug.
      split; reflexivity.
  - right. right. exists "20-second.toml"%string. split.
    + vm_compute. left. reflexivity.
    + exists doc_lower. split; reflexivity.
Defined.

(** The fail-loud scenario does not hold as the specification words it:
    with a valid [10-ok.toml] that sets key-file and a malformed
    [20-bad.toml] sorted after it, [Read] returns an error, but the value
    next to it does not carry the key-file of [10-ok.toml]. *)
Lemma dropin_before_malformed_not_applied :
  overrideLoads decode_sample join_entry fs_fail_loud defaultSources "10-ok.toml"
    (dto.mk None (Some "/etc/rhc/dropin.key"%string) None None) /\
  ReadFile fs_fail_loud (join_entry (DropInDir defaultSources) "20-bad.toml")
  = Ok doc_invalid /\
  decode_sample doc_invalid = Err decodeFailure /\
  str_lt "10-ok.toml" "20-bad.toml" /\
  snd (Read decode_sample join_entry doc_baseline fs_fail_loud defaultSources) <> None /\
  KeyFile (fst (Read decode_sample join_entry doc_baseline fs_fail_loud defaultSources))
  <> "/etc/rhc/dropin.key"%string /\
  fst (Read decode_sample join_entry doc_baseline fs_fail_loud defaultSources)
  = Update zeroConfig baselineDTO.
Proof.
  repeat split; try reflexivity; try (vm_compute; discriminate).
  exists doc_key. split; reflexivity.
Qed.

Lemma Read_malformed_dropin_witness :
  exists err,
    Read decode_sample join_entry doc_baseline fs_fail_loud defaultSources
    = (afterMain baselineDTO None, Some err).
Proof.
  apply (Read_malformed_dropin decode_sample join_entry doc_baseline fs_fail_loud
           defaultSources baselineDTO None failLoudEntries
           "20-bad.toml" doc_invalid decodeFailure).
  - reflexivity.
  - eexists. split; reflexivity.
  - split; [intros e H; vm_compute in H; discriminate | reflexivity].
  - vm_compute. right. left. reflexivity.
  - reflexivity.
  - reflexivity.
Defined.

(** The ordering law read for every field and value does not hold: the
    file [10-first.toml] sets the log level to DEBUG, the later file
    [20-second.toml] sets it to the lower-case spelling; both load, [Read]
    succeeds, and the resolved level is the one of the earlier file. *)
Lemma later_dropin_with_unknown_level_loses :
  (forall n, In n (overrideNames shadowEntries)
             <-> n = "10-first.toml"%string \/ n = "20-second.toml"%string) /\
  str_lt "10-first.toml" "20-second.toml" /\
  overrideLoads decode_sample join_entry (fs_shadow doc_debug doc_lower)
    defaultSources "10-first.toml" (dto.mk None None (Some "DEBUG"%string) None) /\
  overrideLoads decode_sample join_entry (fs_shadow doc_debug doc_lower)
    defaultSources "20-second.toml" (dto.mk None None (Some "debug"%string) None) /\
  "DEBUG"%string <> "debug"%string /\
  snd (Read decode_sample join_entry doc_baseline (fs_shadow doc_debug doc_lower)
         defaultSources) = None /\
  field_is (fst (Read decode_sample join_entry doc_baseline
                   (fs_shadow doc_debug doc_lower) defaultSources))
    FLogLevel "DEBUG" /\
  ~ field_is (fst (Read decode_sample join_entry doc_baseline
                     (fs_shadow doc_debug doc_lower) defaultSources))
      FLogLevel "debug".
Proof.
  split; [| split; [| split; [| split; [| split; [| split; [| split]]]]]].
  - intros n. vm_compute. intuition congruence.
  - reflexivity.
  - exists doc_debug. split; reflexivity.
  - exists doc_lower. split; reflexivity.
  - discriminate.
  - reflexivity.
  - reflexivity.
  - vm_compute. discriminate.
Qed.

Lemma Read_later_dropin_wins_witness :
  exists c,
    Read decode_sample join_entry doc_baseline (fs_shadow doc_warn doc_debug)
      defaultSources = (c, None) /\
    field_is c FLogLevel "DEBUG".
Proof.
  apply (Read_later_dropin_wins decode_sample join_entry doc_baseline
           (fs_shadow doc_warn doc_debug) defaultSources baselineDTO None
           shadowEntries "10-first.toml" "20-second.toml"
           (dto.mk None None (Some "WARN"%string) None)
           (dto.mk None None (Some "DEBUG"%string) None)
           FLogLevel "WARN" "DEBUG").
  - reflexivity.
  - eexists. split; reflexivity.
  - split; [intros e H; vm_compute in H; discriminate | reflexivity].
  - exists "/etc/rhc/config.toml.d/"%string. intros n Hn.
    vm_compute in Hn. destruct Hn as [<- | [<- | []]]; reflexivity.
  - intros n. vm_compute. intuition congruence.
  - reflexivity.
  - exists doc_warn. split; reflexivity.
  - exists doc_debug. split; reflexivity.
  - reflexivity.
  - reflexivity.
  - discriminate.
  - intros _. vm_compute. discriminate.
Defined.


(** * Further properties *)

(** ** Suffixes and sorted lists *)

Lemma substring_all (s : string) : substring 0 (String.length s) s = s.
Proof.
  induction s as [|a s IH]; simpl; [reflexivity | now rewrite IH].
Qed.

Lemma length_append (p s : string) :
  String.length (p ++ s) = (String.length p + String.length s)%nat.
Proof.
  induction p as [|a p IH]; simpl; [reflexivity | now rewrite IH].
Qed.

Lemma substring_append_drop (p s : string) :
  substring (String.length p) (String.length s) (p ++ s) = s.
Proof.
  induction p as [|a p IH]; simpl; [apply substring_all | exact IH].
Qed.

Lemma substring_split (s : string) (k : nat) :
  (k <= String.length s)%nat ->
  s = (substring 0 k s ++ substring k (String.length s - k) s)%string.
Proof.
  revert k. induction s as [|a s IH]; intros [|k] Hk; simpl in *;
    try reflexivity; try lia.
  - now rewrite substring_all.
  - f_equal. apply IH. lia.
Qed.

(** [HasSuffix] holds exactly of the strings that end with the suffix. *)
Lemma HasSuffix_iff (s suffix : string) :
  HasSuffix s suffix = true <-> exists stem, s = (stem ++ suffix)%string.
Proof.
  unfold HasSuffix. rewrite andb_true_iff, Nat.leb_le, String.eqb_eq. split.
  - intros [Hle Hsub].
    exists (substring 0 (String.length s - String.length suffix) s).
    pose proof (substring_split s (String.length s - String.length suffix)) as H.
    replace (String.length s - (String.length s - String.length suffix))%nat
      with (String.length suffix) in H by lia.
    rewrite Hsub in H. apply H. lia.
  - intros [stem ->]. rewrite length_append. split; [lia |].
    replace (String.length stem + String.length suffix - String.length suffix)%nat
      with (String.length stem) by lia.
    apply substring_append_drop.
Qed.

(** Two ascending lists with the same elements are the same list. *)
Lemma sorted_Permutation_eq (l1 l2 : list string) :
  StronglySorted str_le l1 -> StronglySorted str_le l2 ->
  Permutation l1 l2 -> l1 = l2.
Proof.
  intros H1. revert l2.
  induction H1 as [|x l1 Hs1 IH Hx]; intros l2 H2 Hp.
  - apply Permutation_nil in Hp. now subst.
  - destruct H2 as [|y l2 Hs2 Hy].
    + apply Permutation_sym, Permutation_nil in Hp. discriminate.
    + assert (x = y) as <-.
      { assert (Hxin : In x (y :: l2))
          by (eapply Permutation_in; [exact Hp | now left]).
        assert (Hyin : In y (x :: l1))
          by (eapply Permutation_in; [symmetry; exact Hp | now left]).
        destruct Hxin as [-> | Hxin]; [reflexivity |].
        destruct Hyin as [-> | Hyin]; [reflexivity |].
        rewrite Forall_forall in Hx, Hy.
        apply String.leb_antisym; [now apply Hx | now apply Hy]. }
      f_equal. apply IH; [assumption |].
      now apply Permutation_cons_inv in Hp.
Qed.

Lemma sort_Strings_Permutation (l l' : list string) :
  Permutation l l' -> sort_Strings l = sort_Strings l'.
Proof.
  intros Hp. apply sorted_Permutation_eq; try apply sort_Strings_sorted.
  rewrite <- (sort_Strings_perm l), <- (sort_Strings_perm l'). exact Hp.
Qed.

Lemma overrideNames_Permutation (entries entries' : list DirEntry) :
  Permutation entries entries' ->
  Permutation (overrideNames entries) (overrideNames entries').
Proof.
  unfold overrideNames. intros Hp. apply Permutation_map.
  induction Hp as [|x l l' _ IH|x y l|l l' l'' _ IH1 _ IH2]; simpl.
  - constructor.
  - destruct (negb (IsDir x) && HasSuffix (Name x) ".toml"); [now constructor | exact IH].
  - destruct (negb (IsDir x) && HasSuffix (Name x) ".toml"),
             (negb (IsDir y) && HasSuffix (Name y) ".toml");
      try reflexivity. apply perm_swap.
  - now rewrite IH1.
Qed.

Lemma In_overrideNames (entries : list DirEntry) (n : string) :
  In n (overrideNames entries) <->
  exists entry, In entry entries /\ IsDir entry = false /\
                HasSuffix (Name entry) ".toml" = true /\ Name entry = n.
Proof.
  unfold overrideNames. rewrite in_map_iff. split.
  - intros (entry & <- & Hin). apply filter_In in Hin as [Hin Hb].
    apply andb_true_iff in Hb as [Hd Hs]. apply negb_true_iff in Hd. eauto 6.
  - intros (entry & Hin & Hd & Hs & <-). exists entry. split; [reflexivity |].
    apply filter_In. split; [assumption |]. now rewrite Hd, Hs.
Qed.

(** ** Levels under [Update] *)

Lemma levelNamed_namedLevel (v : string) (l : slog.Level) :
  levelNamed v = Some l -> namedLevel l.
Proof.
  intros H. apply levelNamed_Some in H. unfold namedLevel. intuition.
Qed.

Lemma Update_namedLevel (c : Config) (d : configDTO) :
  namedLevel (LogLevel c) -> namedLevel (LogLevel (Update c d)).
Proof.
  intros Hc. rewrite LogLevel_Update.
  destruct (dto.LogLevel d) as [v|]; [| assumption].
  destruct (levelNamed v) eqn:E; [| assumption].
  eapply levelNamed_namedLevel; eassumption.
Qed.

Lemma fold_Update_namedLevel (ds : list configDTO) (c : Config) :
  namedLevel (LogLevel c) -> namedLevel (LogLevel (fold_left Update ds c)).
Proof.
  revert c. induction ds as [|d ds IH]; intros c Hc; simpl; [assumption |].
  apply IH. now apply Update_namedLevel.
Qed.

Lemma zeroConfig_namedLevel : namedLevel (LogLevel zeroConfig).
Proof. right. left. reflexivity. Qed.

Lemma afterMain_namedLevel (d0 : configDTO) (dm : option configDTO) :
  namedLevel (LogLevel (afterMain d0 dm)).
Proof.
  destruct dm; simpl; repeat apply Update_namedLevel; apply zeroConfig_namedLevel.
Qed.

(** ** How overlays compose *)

Lemma get_Update_path (c : Config) (d : configDTO) (f : field) :
  f <> FLogLevel ->
  get (Update c d) f
  = match overlay d f with Some v => VString v | None => get c f end.
Proof.
  intros Hf. destruct f; simpl; try congruence.
  - rewrite CertFile_Update. now destruct (dto.CertFile d).
  - rewrite KeyFile_Update. now destruct (dto.KeyFile d).
  - rewrite CADir_Update. now destruct (dto.CADir d).
Qed.

Lemma LogLevel_Update_levelSet (c : Config) (d : configDTO) :
  LogLevel (Update c d)
  = match levelSet d with Some l => l | None => LogLevel c end.
Proof.
  rewrite LogLevel_Update. unfold levelSet. now destruct (dto.LogLevel d).
Qed.

(** A path field after a sequence of overlays is what the last overlay that
    has the field says, and the prior value when none has it. *)
Lemma fold_Update_path (ds : list configDTO) (c : Config) (f : field) :
  f <> FLogLevel ->
  get (fold_left Update ds c) f
  = match lastPresent f ds with Some v => VString v | None => get c f end.
Proof.
  intros Hf. induction ds as [|d ds IH] using rev_ind; [reflexivity |].
  rewrite fold_left_app. simpl. rewrite get_Update_path by assumption.
  unfold lastPresent in *. rewrite rev_app_distr. simpl.
  unfold present at 1. destruct (overlay d f) as [v|] eqn:E.
  - now rewrite E.
  - exact IH.
Qed.

(** The level after a sequence of overlays is the one set by the last
    overlay whose log level is one of the four names. *)
Lemma fold_Update_level (ds : list configDTO) (c : Config) :
  LogLevel (fold_left Update ds c)
  = match lastLevel ds with Some l => l | None => LogLevel c end.
Proof.
  induction ds as [|d ds IH] using rev_ind; [reflexivity |].
  rewrite fold_left_app. simpl. rewrite LogLevel_Update_levelSet.
  unfold lastLevel in *. rewrite rev_app_distr. simpl.
  destruct (levelSet d) as [l|] eqn:E.
  - now rewrite E.
  - exact IH.
Qed.

Lemma fold_layers (d0 : configDTO) (dm : option configDTO) (ds : list configDTO) :
  fold_left Update (layers d0 dm ds) zeroConfig = fold_left Update ds (afterMain d0 dm).
Proof.
  now destruct dm.
Qed.

(** X1.  Overlays without a common field can be applied in either order. *)
Theorem Update_disjoint_commute (c : Config) (d1 d2 : configDTO) :
  disjointOverlays d1 d2 ->
  Update (Update c d1) d2 = Update (Update c d2) d1.
Proof.
  intros H. apply Config_ext.
  - rewrite !CADir_Update.
    destruct (H FCADir) as [E | E]; simpl in E; rewrite E;
      now destruct (dto.CADir d1), (dto.CADir d2).
  - rewrite !CertFile_Update.
    destruct (H FCertFile) as [E | E]; simpl in E; rewrite E;
      now destruct (dto.CertFile d1), (dto.CertFile d2).
  - rewrite !KeyFile_Update.
    destruct (H FKeyFile) as [E | E]; simpl in E; rewrite E;
      now destruct (dto.KeyFile d1), (dto.KeyFile d2).
  - rewrite !LogLevel_Update_levelSet. unfold levelSet.
    destruct (H FLogLevel) as [E | E]; simpl in E; rewrite E;
      [destruct (dto.LogLevel d2) as [v|] | destruct (dto.LogLevel d1) as [v|]];
      try reflexivity; now destruct (levelNamed v).
Qed.

Lemma Update_disjoint_commute_witness :
  Update (Update zeroConfig (dto.mk None (Some "/etc/rhc/dropin.key"%string) None None))
    (dto.mk None None (Some "DEBUG"%string) None)
  = Update (Update zeroConfig (dto.mk None None (Some "DEBUG"%string) None))
      (dto.mk None (Some "/etc/rhc/dropin.key"%string) None None).
Proof.
  apply (Update_disjoint_commute zeroConfig
           (dto.mk None (Some "/etc/rhc/dropin.key"%string) None None)
           (dto.mk None None (Some "DEBUG"%string) None)).
  intros f. destruct f; simpl; auto.
Defined.

(** X2.  An overlay that has every field of an earlier one, with a named
    log level where the earlier one has a log level, makes the earlier one
    irrelevant. *)
Theorem Update_covered (c : Config) (d1 d2 : configDTO) :
  covers d2 d1 ->
  Update (Update c d1) d2 = Update c d2.
Proof.
  intros [Hcov Hlvl]. apply Config_ext.
  - rewrite !CADir_Update. destruct (dto.CADir d2) eqn:E2; [reflexivity |].
    destruct (dto.CADir d1) eqn:E1; [| reflexivity].
    exfalso. apply (Hcov FCADir); simpl; congruence.
  - rewrite !CertFile_Update. destruct (dto.CertFile d2) eqn:E2; [reflexivity |].
    destruct (dto.CertFile d1) eqn:E1; [| reflexivity].
    exfalso. apply (Hcov FCertFile); simpl; congruence.
  - rewrite !KeyFile_Update. destruct (dto.KeyFile d2) eqn:E2; [reflexivity |].
    destruct (dto.KeyFile d1) eqn:E1; [| reflexivity].
    exfalso. apply (Hcov FKeyFile); simpl; congruence.
  - rewrite !LogLevel_Update.
    destruct (dto.LogLevel d1) as [v1|] eqn:E1; [| reflexivity].
    destruct Hlvl as (v & -> & Hv); [discriminate |].
    destruct (levelNamed v); [reflexivity | now elim Hv].
Qed.

Lemma Update_covered_witness :
  Update (Update zeroConfig (dto.mk (Some "/etc/rhc/main.pem"%string) None
                               (Some "WARN"%string) None))
    baselineDTO
  = Update zeroConfig baselineDTO.
Proof.
  apply (Update_covered zeroConfig
           (dto.mk (Some "/etc/rhc/main.pem"%string) None (Some "WARN"%string) None)
           baselineDTO).
  split.
  - intros f _. destruct f; discriminate.
  - intros _. exists "INFO"%string. split; [reflexivity | discriminate].
Defined.

(** ** Discovery, loading and resolution, case by case *)

Section ResolverFacts.

Variable toml_Unmarshal : string -> result configDTO.
Variable filepath_Join : string -> string -> string.
Variable defaultConfig : string.
Variable fs : FileSystem.

Local Abbreviation parseConfigDTO := (parseConfigDTO toml_Unmarshal).
Local Abbreviation findDropInFiles := (findDropInFiles filepath_Join fs).
Local Abbreviation loadEach := (loadEach toml_Unmarshal fs).
Local Abbreviation parseDropInFiles := (parseDropInFiles toml_Unmarshal filepath_Join fs).
Local Abbreviation applyDropIns := (applyDropIns toml_Unmarshal filepath_Join fs).
Local Abbreviation Read := (Read toml_Unmarshal filepath_Join defaultConfig fs).
Local Abbreviation init := (init toml_Unmarshal filepath_Join defaultConfig fs).
Local Abbreviation loadsTo := (loadsTo toml_Unmarshal fs).
Local Abbreviation fileMissing := (fileMissing fs).
Local Abbreviation mainStage := (mainStage toml_Unmarshal fs).
Local Abbreviation dirMissing := (dirMissing fs).
Local Abbreviation dirLists := (dirLists fs).

(** What [findDropInFiles] returns is empty, or the sorted joined names of
    a listing. *)
Lemma findDropInFiles_Ok_inv (cs : ConfigSource) (paths : list string) :
  findDropInFiles cs = Ok paths ->
  paths = [] \/
  exists entries,
    ReadDir fs (DropInDir cs) = Ok entries /\
    paths = sort_Strings (map (filepath_Join (DropInDir cs)) (overrideNames entries)).
Proof.
  unfold findDropInFiles.
  destruct (match Stat fs (DropInDir cs) with
            | Some err => IsNotExist err
            | None => false
            end).
  - intros [= <-]. now left.
  - destruct (ReadDir fs (DropInDir cs)) as [entries|e]; [| discriminate].
    intros [= <-]. right. exists entries. split; [reflexivity |].
    now rewrite (collectFilenames_spec filepath_Join).
Qed.

(** The loop of [parseDropInFiles], read backwards: a result is one overlay
    per path, each loaded from its file. *)
Lemma loadEach_Ok_inv (paths : list string) (dtos out : list configDTO) :
  loadEach paths dtos = Ok out ->
  exists ds, out = (dtos ++ ds)%list /\ Forall2 loadsTo paths ds.
Proof.
  revert dtos. induction paths as [|path rest IH]; intros dtos; simpl.
  - intros [= <-]. exists []. split; [now rewrite app_nil_r | constructor].
  - destruct (ReadFile fs path) as [data|e] eqn:Hr; [| discriminate].
    destruct (parseConfigDTO data) as [d|e] eqn:Hp; [| discriminate].
    intros H. apply IH in H as (ds & -> & Hds).
    exists (d :: ds). split; [now rewrite <- app_assoc |].
    constructor; [exists data; now split | assumption].
Qed.

(** The outcomes of [Read], one per [return] of the source. *)
Lemma Read_cases (cs : ConfigSource) :
  (exists e,
      parseConfigDTO defaultConfig = Err e /\
      Read cs = (zeroConfig, Some (Errorf "failed to parse embedded defaults" e))) \/
  (exists d0,
      parseConfigDTO defaultConfig = Ok d0 /\
      ((exists e,
           ReadFile fs (Path cs) = Err e /\ IsNotExist e = false /\
           Read cs = (Update zeroConfig d0, Some (Errorf ("failed to load " ++ Path cs) e))) \/
       (exists data e,
           ReadFile fs (Path cs) = Ok data /\ parseConfigDTO data = Err e /\
           Read cs = (Update zeroConfig d0, Some (Errorf ("failed to parse " ++ Path cs) e))) \/
       (exists dm,
           mainStage cs dm /\
           ((exists e, parseDropInFiles cs = Err e /\
                       Read cs = (afterMain d0 dm, Some e)) \/
            (exists ds, parseDropInFiles cs = Ok ds /\
                        Read cs = (fold_left Update ds (afterMain d0 dm), None)))))).
Proof.
  unfold Read.
  destruct (parseConfigDTO defaultConfig) as [d0|e0] eqn:H0; [right | left; eauto].
  exists d0. split; [reflexivity |].
  destruct (ReadFile fs (Path cs)) as [data|e] eqn:Hr.
  - destruct (parseConfigDTO data) as [d|e] eqn:Hp.
    + right. right. exists (Some d). split; [exists data; now split |].
      unfold applyDropIns. simpl.
      destruct (parseDropInFiles cs); [right | left]; eauto.
    + right. left. eauto.
  - destruct (IsNotExist e) eqn:He; simpl.
    + right. right. exists None. split; [exists e; now split |].
      unfold applyDropIns. simpl.
      destruct (parseDropInFiles cs); [right | left]; eauto.
    + left. eauto.
Qed.

(** X3.  The paths that [findDropInFiles] returns are in ascending
    byte-wise order. *)
Theorem findDropInFiles_sorted (cs : ConfigSource) (paths : list string) :
  findDropInFiles cs = Ok paths -> StronglySorted str_le paths.
Proof.
  intros H. apply findDropInFiles_Ok_inv in H as [-> | (entries & _ & ->)].
  - constructor.
  - apply sort_Strings_sorted.
Qed.

(** X4.  For a directory that exists, [findDropInFiles] returns exactly the
    joined names of the entries that are not directories and whose name
    ends in [.toml]: subdirectories and other files never appear. *)
Theorem findDropInFiles_members (cs : ConfigSource) (entries : list DirEntry)
    (paths : list string) (p : string) :
  dirLists cs entries ->
  findDropInFiles cs = Ok paths ->
  (In p paths <->
   exists entry stem,
     In entry entries /\ IsDir entry = false /\
     Name entry = (stem ++ ".toml")%string /\
     p = filepath_Join (DropInDir cs) (Name entry)).
Proof.
  intros Hdir H. rewrite (findDropInFiles_lists filepath_Join fs cs entries Hdir) in H.
  injection H as <-. split.
  - intros Hin.
    apply (Permutation_in _ (Permutation_sym (sort_Strings_perm _))) in Hin.
    apply in_map_iff in Hin as (n & <- & Hn).
    apply In_overrideNames in Hn as (entry & Hin & Hd & Hs & <-).
    apply HasSuffix_iff in Hs as [stem Hs]. eauto 8.
  - intros (entry & stem & Hin & Hd & Hs & ->).
    eapply Permutation_in; [apply sort_Strings_perm |].
    apply in_map. apply In_overrideNames. exists entry.
    repeat split; trivial. apply HasSuffix_iff. eauto.
Qed.

(** X5.  A drop-in directory that cannot be listed, for another reason than
    not existing, ends the resolution: [Read] returns the value resolved
    from the baseline and the main file, with the wrapped error. *)
Theorem Read_dir_unreadable (cs : ConfigSource) (d0 : configDTO)
    (dm : option configDTO) (e : error) :
  parseConfigDTO defaultConfig = Ok d0 ->
  mainStage cs dm ->
  (forall e', Stat fs (DropInDir cs) = Some e' -> IsNotExist e' = false) ->
  ReadDir fs (DropInDir cs) = Err e ->
  Read cs = (afterMain d0 dm,
             Some (Errorf ("failed to read drop-in directory " ++ DropInDir cs) e)).
Proof.
  intros H0 Hm Hs Hd.
  rewrite (Read_after_main toml_Unmarshal filepath_Join defaultConfig fs cs d0 dm H0 Hm).
  unfold applyDropIns, parseDropInFiles, findDropInFiles. rewrite Hd.
  destruct (Stat fs (DropInDir cs)) as [e'|]; [| reflexivity].
  now rewrite (Hs e' eq_refl).
Qed.

(** X6.  A main file that cannot be read, for another reason than not
    existing, ends the resolution before the drop-ins: [Read] returns the
    baseline-only value with the wrapped error. *)
Theorem Read_main_unreadable (cs : ConfigSource) (d0 : configDTO) (e : error) :
  parseConfigDTO defaultConfig = Ok d0 ->
  ReadFile fs (Path cs) = Err e ->
  IsNotExist e = false ->
  Read cs = (Update zeroConfig d0, Some (Errorf ("failed to load " ++ Path cs) e)).
Proof.
  intros H0 Hr He. unfold Read. now rewrite H0, Hr, He.
Qed.

(** The level in any outcome of [Read] is a named one. *)
Lemma Read_outcome_namedLevel (cs : ConfigSource) (c : Config) (err : option error) :
  Read cs = (c, err) -> namedLevel (LogLevel c).
Proof.
  intros H.
  destruct (Read_cases cs)
    as [(e & _ & E)
       | (d0 & _ & [(e & _ & _ & E)
                   | [(data & e & _ & _ & E)
                     | (dm & _ & [(e & _ & E) | (ds & _ & E)])]])];
    rewrite E in H; injection H as <- _.
  - apply zeroConfig_namedLevel.
  - apply Update_namedLevel, zeroConfig_namedLevel.
  - apply Update_namedLevel, zeroConfig_namedLevel.
  - apply afterMain_namedLevel.
  - apply fold_Update_namedLevel, afterMain_namedLevel.
Qed.

(** X7.  Whatever the documents and the file system hold, and whether
    [Read] fails or not, the log level it returns is one of the four named
    levels. *)
Theorem Read_LogLevel_named (cs : ConfigSource) :
  namedLevel (LogLevel (fst (Read cs))).
Proof.
  apply (Read_outcome_namedLevel cs _ (snd (Read cs))).
  now destruct (Read cs).
Qed.

(** X8.  The configuration that the initialiser installs has a log level
    that is one of the four named levels. *)
Theorem init_LogLevel_named (c : Config) :
  init = Installed c -> namedLevel (LogLevel c).
Proof.
  unfold init.
  destruct (Read defaultSources) as [config err] eqn:E.
  apply Read_outcome_namedLevel in E.
  destruct err as [err|].
  - destruct (parseConfigDTO defaultConfig); [| discriminate].
    intros [= <-]. now apply Update_namedLevel.
  - now intros [= <-].
Qed.

(** X9.  The value returned next to an error never contains a drop-in: it
    is the zero value, the baseline alone, or the baseline with the main
    file. *)
Theorem Read_error_value (cs : ConfigSource) (c : Config) (err : error) :
  Read cs = (c, Some err) ->
  c = zeroConfig \/
  exists d0,
    parseConfigDTO defaultConfig = Ok d0 /\
    (c = Update zeroConfig d0 \/
     exists d, loadsTo (Path cs) d /\ c = Update (Update zeroConfig d0) d).
Proof.
  intros H.
  destruct (Read_cases cs)
    as [(e & _ & E)
       | (d0 & H0 & [(e & _ & _ & E)
                    | [(data & e & _ & _ & E)
                      | (dm & Hm & [(e & _ & E) | (ds & _ & E)])]])];
    rewrite E in H; injection H as <-; try discriminate.
  - now left.
  - right. exists d0. auto.
  - right. exists d0. auto.
  - right. exists d0. split; [assumption |].
    destruct dm as [d|]; simpl; [right; eauto | now left].
Qed.

(** X10.  [Read] returns a nil error exactly when the baseline decodes, the
    main file is missing or loads, and every drop-in loads; the value is
    then the overlays of the drop-ins folded, in path order, over the
    baseline and the main file. *)
Theorem Read_success_iff (cs : ConfigSource) (c : Config) :
  Read cs = (c, None) <->
  exists d0 dm ds,
    parseConfigDTO defaultConfig = Ok d0 /\
    mainStage cs dm /\
    parseDropInFiles cs = Ok ds /\
    c = fold_left Update ds (afterMain d0 dm).
Proof.
  split.
  - intros H.
    destruct (Read_cases cs)
      as [(e & _ & E)
         | (d0 & H0 & [(e & _ & _ & E)
                      | [(data & e & _ & _ & E)
                        | (dm & Hm & [(e & _ & E) | (ds & Hd & E)])]])];
      rewrite E in H; try discriminate.
    injection H as <-. exists d0, dm, ds. auto.
  - intros (d0 & dm & ds & H0 & Hm & Hd & ->).
    now apply Read_layers.
Qed.

(** X11.  When the drop-in stage succeeds it returns one overlay per
    discovered path, each the decoding of the file at that path, in the
    order of the paths; and it succeeds whenever every path loads. *)
Theorem parseDropInFiles_Ok_iff (cs : ConfigSource) (paths : list string)
    (ds : list configDTO) :
  findDropInFiles cs = Ok paths ->
  (parseDropInFiles cs = Ok ds <-> Forall2 loadsTo paths ds).
Proof.
  intros Hf. unfold parseDropInFiles. rewrite Hf. split.
  - intros H. apply loadEach_Ok_inv in H as (ds' & -> & Hds). exact Hds.
  - intros H. exact (loadEach_ok toml_Unmarshal fs paths ds [] H).
Qed.

(** X12.  The error of the drop-in stage names the first file, in path
    order, that does not decode: the files before it load, and the error
    wraps the decoder's error with the path of that file. *)
Theorem parseDropInFiles_first_malformed (cs : ConfigSource)
    (before after : list string) (path data : string) (e : error) :
  findDropInFiles cs = Ok (before ++ path :: after)%list ->
  Forall (fun q => exists d, loadsTo q d) before ->
  ReadFile fs path = Ok data ->
  toml_Unmarshal data = Err e ->
  parseDropInFiles cs
  = Err (Errorf ("failed to parse " ++ path) (Errorf "failed to parse TOML" e)).
Proof.
  intros Hf Hb Hr He. unfold parseDropInFiles. rewrite Hf. clear Hf.
  generalize (@nil configDTO).
  induction Hb as [|q before (d & data' & Hr' & Hp') _ IH]; intros dtos; simpl.
  - now rewrite Hr, (parseConfigDTO_Err toml_Unmarshal data e He).
  - rewrite Hr', Hp'. apply IH.
Qed.

(** X13.  A drop-in that is listed but cannot be read ends the drop-in
    stage with the error of [os.ReadFile] as it is, without the path
    prefix that a decoding error gets. *)
Theorem parseDropInFiles_unreadable (cs : ConfigSource)
    (before after : list string) (path : string) (e : error) :
  findDropInFiles cs = Ok (before ++ path :: after)%list ->
  Forall (fun q => exists d, loadsTo q d) before ->
  ReadFile fs path = Err e ->
  parseDropInFiles cs = Err e.
Proof.
  intros Hf Hb Hr. unfold parseDropInFiles. rewrite Hf. clear Hf.
  generalize (@nil configDTO).
  induction Hb as [|q before (d & data' & Hr' & Hp') _ IH]; intros dtos; simpl.
  - now rewrite Hr.
  - rewrite Hr', Hp'. apply IH.
Qed.

(** X14.  A drop-in directory that holds subdirectories and files of other
    extensions only acts like a missing one: [Read] returns the baseline
    with the main file and a nil error. *)
Theorem Read_no_override_files (cs : ConfigSource) (d0 : configDTO)
    (dm : option configDTO) (entries : list DirEntry) :
  parseConfigDTO defaultConfig = Ok d0 ->
  mainStage cs dm ->
  dirLists cs entries ->
  (forall entry, In entry entries ->
                 IsDir entry = true \/ HasSuffix (Name entry) ".toml" = false) ->
  Read cs = (afterMain d0 dm, None).
Proof.
  intros H0 Hm Hdir Hnone.
  assert (Hnames : overrideNames entries = []).
  { destruct (overrideNames entries) as [|n names] eqn:E; [reflexivity |].
    assert (Hin : In n (overrideNames entries)) by (rewrite E; now left).
    apply In_overrideNames in Hin as (entry & Hin & Hd & Hs & _).
    destruct (Hnone entry Hin); congruence. }
  apply (Read_layers toml_Unmarshal filepath_Join defaultConfig fs cs d0 dm []);
    trivial.
  unfold parseDropInFiles.
  now rewrite (findDropInFiles_lists filepath_Join fs cs entries Hdir), Hnames.
Qed.

(** X15.  On success each path field (cert-file, key-file, ca-dir) is what
    the last layer that has the field says, the layers being the baseline,
    the main file and the drop-ins in path order; it is empty when no layer
    has the field. *)
Theorem Read_path_field_last_layer (cs : ConfigSource) (d0 : configDTO)
    (dm : option configDTO) (ds : list configDTO) (f : field) :
  parseConfigDTO defaultConfig = Ok d0 ->
  mainStage cs dm ->
  parseDropInFiles cs = Ok ds ->
  f <> FLogLevel ->
  get (fst (Read cs)) f
  = VString match lastPresent f (layers d0 dm ds) with
            | Some v => v
            | None => EmptyString
            end.
Proof.
  intros H0 Hm Hd Hf.
  rewrite (Read_layers toml_Unmarshal filepath_Join defaultConfig fs cs d0 dm ds H0 Hm Hd).
  simpl fst. rewrite <- fold_layers, (fold_Update_path _ _ f Hf).
  destruct (lastPresent f (layers d0 dm ds)); [reflexivity |].
  now destruct f.
Qed.

(** X16.  On success the log level is the one set by the last layer whose
    log level is one of the four names; layers with another spelling are
    passed over, and the level is INFO when no layer sets one. *)
Theorem Read_level_last_layer (cs : ConfigSource) (d0 : configDTO)
    (dm : option configDTO) (ds : list configDTO) :
  parseConfigDTO defaultConfig = Ok d0 ->
  mainStage cs dm ->
  parseDropInFiles cs = Ok ds ->
  LogLevel (fst (Read cs))
  = match lastLevel (layers d0 dm ds) with
    | Some l => l
    | None => slog.LevelInfo
    end.
Proof.
  intros H0 Hm Hd.
  rewrite (Read_layers toml_Unmarshal filepath_Join defaultConfig fs cs d0 dm ds H0 Hm Hd).
  simpl fst. now rewrite <- fold_layers, fold_Update_level.
Qed.

(** X17.  The initialiser panics exactly when the embedded baseline does
    not decode; a broken main file or drop-in never makes it panic. *)
Theorem init_panics_iff :
  (exists msg, init = Panicked msg) <->
  (exists e, parseConfigDTO defaultConfig = Err e).
Proof.
  unfold init. split.
  - intros [msg H].
    destruct (Read defaultSources) as [config [err|]]; [| discriminate].
    destruct (parseConfigDTO defaultConfig) as [d|e]; [discriminate | eauto].
  - intros [e He].
    destruct (Read_cases defaultSources) as [(e' & _ & ->) | (d0 & H0 & _)].
    + rewrite He. eauto.
    + congruence.
Qed.

End ResolverFacts.

(** ** The listing order of the directory *)

Lemma loadEach_ReadFile_ext (toml_Unmarshal : string -> result configDTO)
    (fs fs' : FileSystem) (paths : list string) (dtos : list configDTO) :
  (forall p, ReadFile fs' p = ReadFile fs p) ->
  loadEach toml_Unmarshal fs' paths dtos = loadEach toml_Unmarshal fs paths dtos.
Proof.
  intros Hext. revert dtos.
  induction paths as [|path rest IH]; intros dtos; simpl; [reflexivity |].
  rewrite Hext. destruct (ReadFile fs path) as [data|e]; [| reflexivity].
  destruct (parseConfigDTO toml_Unmarshal data); [apply IH | reflexivity].
Qed.

(** X18.  The outcome of [Read] does not depend on the order in which the
    operating system lists the drop-in directory: two file systems with the
    same files whose listings are permutations of each other resolve alike. *)
Theorem Read_listing_order_irrelevant
    (toml_Unmarshal : string -> result configDTO)
    (filepath_Join : string -> string -> string) (defaultConfig : string)
    (fs fs' : FileSystem) (cs : ConfigSource) (entries entries' : list DirEntry) :
  (forall p, ReadFile fs' p = ReadFile fs p) ->
  Stat fs' (DropInDir cs) = Stat fs (DropInDir cs) ->
  ReadDir fs (DropInDir cs) = Ok entries ->
  ReadDir fs' (DropInDir cs) = Ok entries' ->
  Permutation entries entries' ->
  Read toml_Unmarshal filepath_Join defaultConfig fs' cs
  = Read toml_Unmarshal filepath_Join defaultConfig fs cs.
Proof.
  intros Hfile Hstat Hdir Hdir' Hperm.
  assert (Hfind : findDropInFiles filepath_Join fs' cs = findDropInFiles filepath_Join fs cs).
  { unfold findDropInFiles. rewrite Hstat, Hdir, Hdir'.
    destruct (match Stat fs (DropInDir cs) with
              | Some err => IsNotExist err
              | None => false
              end); [reflexivity |].
    rewrite !collectFilenames_spec. simpl. f_equal.
    apply sort_Strings_Permutation, Permutation_map, Permutation_sym.
    now apply overrideNames_Permutation. }
  assert (Hparse : parseDropInFiles toml_Unmarshal filepath_Join fs' cs
                   = parseDropInFiles toml_Unmarshal filepath_Join fs cs).
  { unfold parseDropInFiles. rewrite Hfind.
    destruct (findDropInFiles filepath_Join fs cs); [| reflexivity].
    now apply loadEach_ReadFile_ext. }
  unfold Read, applyDropIns. rewrite Hparse, Hfile.
  reflexivity.
Qed.

Lemma Read_listing_order_irrelevant_witness :
  Read decode_sample join_entry doc_baseline (fs_shadow_relisted doc_warn doc_debug)
    defaultSources
  = Read decode_sample join_entry doc_baseline (fs_shadow doc_warn doc_debug)
      defaultSources.
Proof.
  apply (Read_listing_order_irrelevant decode_sample join_entry doc_baseline
           (fs_shadow doc_warn doc_debug) (fs_shadow_relisted doc_warn doc_debug)
           defaultSources shadowEntries (rev shadowEntries)).
  - reflexivity.
  - reflexivity.
  - reflexivity.
  - reflexivity.
  - apply Permutation_rev.
Defined.

(** ** Error messages and the exit status *)

Lemma HasPriorityErrors_true_iff (errorMessages : list (string * logging.LogMessage))
    (level : slog.Level) :
  logging.HasPriorityErrors errorMessages level = true <->
  exists step logMsg, In (step, logMsg) errorMessages /\ level <= logging.Level logMsg.
Proof.
  induction errorMessages as [|[step logMsg] rest IH]; simpl.
  - split; [discriminate | intros (? & ? & [] & _)].
  - destruct (Z.leb_spec level (logging.Level logMsg)) as [Hle | Hgt].
    + split; [intros _; exists step, logMsg; auto | reflexivity].
    + rewrite IH. split.
      * intros (s & m & Hin & Hle). exists s, m. auto.
      * intros (s & m & [[= <- <-] | Hin] & Hle); [lia | eauto].
Qed.

(** X19.  [HasPriorityErrors] does not depend on the order in which the map
    of messages is visited. *)
Theorem HasPriorityErrors_order (errorMessages errorMessages' : list (string * logging.LogMessage))
    (level : slog.Level) :
  Permutation errorMessages errorMessages' ->
  logging.HasPriorityErrors errorMessages level
  = logging.HasPriorityErrors errorMessages' level.
Proof.
  intros Hp. apply Bool.eq_true_iff_eq. rewrite !HasPriorityErrors_true_iff.
  split; intros (s & m & Hin & Hle); exists s, m; split; trivial.
  - eapply Permutation_in; eassumption.
  - eapply Permutation_in; [symmetry |]; eassumption.
Qed.

Lemma HasPriorityErrors_order_witness :
  logging.HasPriorityErrors sampleMessages slog.LevelError
  = logging.HasPriorityErrors (rev sampleMessages) slog.LevelError.
Proof.
  apply (HasPriorityErrors_order sampleMessages (rev sampleMessages) slog.LevelError).
  apply Permutation_rev.
Defined.

(** X20.  A lower threshold reports at least as much: messages that reach
    a level also reach every level below it. *)
Theorem HasPriorityErrors_antitone (errorMessages : list (string * logging.LogMessage))
    (level level' : slog.Level) :
  level <= level' ->
  logging.HasPriorityErrors errorMessages level' = true ->
  logging.HasPriorityErrors errorMessages level = true.
Proof.
  intros Hle. rewrite !HasPriorityErrors_true_iff.
  intros (s & m & Hin & Hm). exists s, m. split; [assumption | lia].
Qed.

Lemma HasPriorityErrors_antitone_witness :
  logging.HasPriorityErrors sampleMessages slog.LevelInfo = true.
Proof.
  apply (HasPriorityErrors_antitone sampleMessages slog.LevelInfo slog.LevelError).
  - vm_compute. discriminate.
  - reflexivity.
Defined.

(** X21.  [ShowErrorMessages] returns nil or the exit error with status 1
    and an empty message; it returns the exit error exactly when the
    output is not machine-readable, some message reaches the configured
    level and some message reaches the level ERROR. *)
Theorem ShowErrorMessages_exit (globalLevel : slog.Level)
    (errorMessages : list (string * logging.LogMessage))
    (uiSettings : interactive.UserInterfaceSettings) :
  (interactive.ShowErrorMessages globalLevel errorMessages uiSettings = None \/
   interactive.ShowErrorMessages globalLevel errorMessages uiSettings
   = Some (cli.Exit EmptyString 1)) /\
  (interactive.ShowErrorMessages globalLevel errorMessages uiSettings
   = Some (cli.Exit EmptyString 1) <->
   interactive.IsMachineReadable uiSettings = false /\
   (exists step logMsg,
       In (step, logMsg) errorMessages /\ globalLevel <= logging.Level logMsg) /\
   (exists step logMsg,
       In (step, logMsg) errorMessages /\ slog.LevelError <= logging.Level logMsg)).
Proof.
  rewrite <- !HasPriorityErrors_true_iff. unfold interactive.ShowErrorMessages.
  destruct (logging.HasPriorityErrors errorMessages globalLevel),
           (interactive.IsMachineReadable uiSettings),
           (logging.HasPriorityErrors errorMessages slog.LevelError); simpl;
    (split; [auto | split; [intros; try discriminate; auto | intros (? & ? & ?); congruence]]).
Qed.

(** X22.  After [ConfigureUISettings] and [SetupFormatOption]: the call
    succeeds exactly for an empty format and for [json]; the output is
    machine-readable exactly for [json], and then it is not rich; an
    unsupported format returns an exit error with the given status and
    leaves the settings as they were; the icons are never changed. *)
Theorem SetupFormatOption_after_Configure (ctx : cli.Context) (exitCodeDataErr : Z) :
  let configured := interactive.ConfigureUISettings ctx in
  let outcome := interactive.SetupFormatOption ctx configured exitCodeDataErr in
  (snd outcome = None <->
   cli.String ctx "format" = EmptyString \/ cli.String ctx "format" = "json"%string) /\
  (interactive.IsMachineReadable (fst outcome) = true <->
   cli.String ctx "format" = "json"%string) /\
  (interactive.IsMachineReadable (fst outcome) = true ->
   interactive.IsRich (fst outcome) = false) /\
  (forall err, snd outcome = Some err ->
               cli.exitCode err = exitCodeDataErr /\ fst outcome = configured) /\
  interactive.IconOK (fst outcome) = interactive.IconOK configured /\
  interactive.IconInfo (fst outcome) = interactive.IconInfo configured /\
  interactive.IconError (fst outcome) = interactive.IconError configured.
Proof.
  intros configured outcome. subst outcome configured.
  unfold interactive.SetupFormatOption, interactive.ConfigureUISettings.
  destruct (String.eqb_spec (cli.String ctx "format") EmptyString) as [E | NE].
  - rewrite E. destruct (cli.Bool ctx "no-color"); simpl;
      repeat split; auto; try discriminate.
  - destruct (String.eqb_spec (cli.String ctx "format") "json") as [J | NJ].
    + destruct (cli.Bool ctx "no-color"); simpl;
        repeat split; auto; try discriminate.
    + destruct (cli.Bool ctx "no-color"); simpl;
        repeat split; auto; try discriminate;
        try (intros [? | ?]; congruence);
        match goal with
        | H : Some _ = Some _ |- _ => now injection H as <-
        end.
Qed.

(** ** The further laws on the documents of the tests *)

Lemma shadow_dirLists (first second : string) :
  dirLists (fs_shadow first second) defaultSources shadowEntries.
Proof.
  split; [intros e H; vm_compute in H; discriminate | reflexivity].
Defined.

Lemma findDropInFiles_sorted_witness :
  StronglySorted str_le [dropin "10-first.toml"; dropin "20-second.toml"].
Proof.
  apply (findDropInFiles_sorted join_entry (fs_shadow doc_warn doc_debug)
           defaultSources).
  reflexivity.
Defined.

Lemma findDropInFiles_members_witness :
  In (dropin "10-first.toml") [dropin "10-first.toml"; dropin "20-second.toml"] <->
  exists entry stem,
    In entry shadowEntries /\ IsDir entry = false /\
    Name entry = (stem ++ ".toml")%string /\
    dropin "10-first.toml" = join_entry (DropInDir defaultSources) (Name entry).
Proof.
  apply (findDropInFiles_members join_entry (fs_shadow doc_warn doc_debug)
           defaultSources shadowEntries).
  - apply shadow_dirLists.
  - reflexivity.
Defined.

Lemma Read_dir_unreadable_witness :
  Read decode_sample join_entry doc_baseline fs_dir_denied defaultSources
  = (afterMain baselineDTO (Some (dto.mk None None (Some "debug"%string) None)),
     Some (Errorf ("failed to read drop-in directory " ++ DropInDir defaultSources)
             (PathError "open" (DropInDir defaultSources) EACCES))).
Proof.
  apply (Read_dir_unreadable decode_sample join_entry doc_baseline fs_dir_denied
           defaultSources baselineDTO
           (Some (dto.mk None None (Some "debug"%string) None))
           (PathError "open" (DropInDir defaultSources) EACCES)).
  - reflexivity.
  - exists doc_lower. split; reflexivity.
  - intros e' H. vm_compute in H. discriminate.
  - reflexivity.
Defined.

Lemma Read_main_unreadable_witness :
  Read decode_sample join_entry doc_baseline fs_main_denied defaultSources
  = (Update zeroConfig baselineDTO,
     Some (Errorf ("failed to load " ++ Path defaultSources)
             (PathError "open" (Path defaultSources) EACCES))).
Proof.
  apply (Read_main_unreadable decode_sample join_entry doc_baseline fs_main_denied
           defaultSources baselineDTO
           (PathError "open" (Path defaultSources) EACCES)).
  - reflexivity.
  - reflexivity.
  - reflexivity.
Defined.

Lemma init_LogLevel_named_witness :
  namedLevel (LogLevel (Update zeroConfig baselineDTO)).
Proof.
  apply (init_LogLevel_named decode_sample join_entry doc_baseline fs_main_then_bad
           (Update zeroConfig baselineDTO)).
  reflexivity.
Defined.

Lemma Read_error_value_witness :
  Update zeroConfig baselineDTO = zeroConfig \/
  exists d0,
    parseConfigDTO decode_sample doc_baseline = Ok d0 /\
    (Update zeroConfig baselineDTO = Update zeroConfig d0 \/
     exists d, loadsTo decode_sample fs_fail_loud (Path defaultSources) d /\
               Update zeroConfig baselineDTO = Update (Update zeroConfig d0) d).
Proof.
  apply (Read_error_value decode_sample join_entry doc_baseline fs_fail_loud
           defaultSources (Update zeroConfig baselineDTO)
           (Errorf ("failed to parse " ++ dropin "20-bad.toml")
              (Errorf "failed to parse TOML" decodeFailure))).
  reflexivity.
Defined.

Lemma parseDropInFiles_Ok_iff_witness :
  parseDropInFiles decode_sample join_entry (fs_shadow doc_warn doc_debug) defaultSources
  = Ok [dto.mk None None (Some "WARN"%string) None;
        dto.mk None None (Some "DEBUG"%string) None] <->
  Forall2 (loadsTo decode_sample (fs_shadow doc_warn doc_debug))
    [dropin "10-first.toml"; dropin "20-second.toml"]
    [dto.mk None None (Some "WARN"%string) None;
     dto.mk None None (Some "DEBUG"%string) None].
Proof.
  apply (parseDropInFiles_Ok_iff decode_sample join_entry
           (fs_shadow doc_warn doc_debug) defaultSources).
  reflexivity.
Defined.

Lemma parseDropInFiles_first_malformed_witness :
  parseDropInFiles decode_sample join_entry fs_fail_loud defaultSources
  = Err (Errorf ("failed to parse " ++ dropin "20-bad.toml")
           (Errorf "failed to parse TOML" decodeFailure)).
Proof.
  apply (parseDropInFiles_first_malformed decode_sample join_entry fs_fail_loud
           defaultSources [dropin "10-ok.toml"] [dropin "30-late.toml"]
           (dropin "20-bad.toml") doc_invalid decodeFailure).
  - reflexivity.
  - constructor; [| constructor].
    exists (dto.mk None (Some "/etc/rhc/dropin.key"%string) None None), doc_key.
    split; reflexivity.
  - reflexivity.
  - reflexivity.
Defined.

Lemma parseDropInFiles_unreadable_witness :
  parseDropInFiles decode_sample join_entry fs_dropin_denied defaultSources
  = Err (PathError "open" (dropin "20-second.toml") EACCES).
Proof.
  apply (parseDropInFiles_unreadable decode_sample join_entry fs_dropin_denied
           defaultSources [dropin "10-first.toml"] []
           (dropin "20-second.toml")
           (PathError "open" (dropin "20-second.toml") EACCES)).
  - reflexivity.
  - constructor; [| constructor].
    exists (dto.mk None None (Some "WARN"%string) None), doc_warn.
    split; reflexivity.
  - reflexivity.
Defined.

Lemma Read_no_override_files_witness :
  Read decode_sample join_entry doc_baseline fs_no_overrides defaultSources
  = (afterMain baselineDTO
       (Some (dto.mk (Some "/etc/rhc/main.pem"%string) None None None)), None).
Proof.
  apply (Read_no_override_files decode_sample join_entry doc_baseline fs_no_overrides
           defaultSources baselineDTO
           (Some (dto.mk (Some "/etc/rhc/main.pem"%string) None None None))
           [ mkEntry "README" false; mkEntry "old.toml" true ]).
  - reflexivity.
  - exists doc_cert. split; reflexivity.
  - split; [intros e H; vm_compute in H; discriminate | reflexivity].
  - intros entry [<- | [<- | []]]; [right | left]; reflexivity.
Defined.

Lemma Read_path_field_last_layer_witness :
  get (fst (Read decode_sample join_entry doc_baseline fs_full_stack defaultSources))
    FCADir
  = VString "/custom/certs".
Proof.
  apply (Read_path_field_last_layer decode_sample join_entry doc_baseline
           fs_full_stack defaultSources baselineDTO
           (Some (dto.mk (Some "/etc/rhc/main.pem"%string) None (Some "INFO"%string)
                    (Some "/etc/pki/tls/certs"%string)))
           [ dto.mk None (Some "/etc/rhc/dropin.key"%string) None None;
             dto.mk None None (Some "DEBUG"%string) None;
             dto.mk None None None (Some "/custom/certs"%string) ]
           FCADir).
  - reflexivity.
  - exists doc_main_full. split; reflexivity.
  - reflexivity.
  - discriminate.
Defined.

Lemma Read_level_last_layer_witness :
  LogLevel (fst (Read decode_sample join_entry doc_baseline
                   (fs_shadow doc_debug doc_lower) defaultSources))
  = slog.LevelDebug.
Proof.
  apply (Read_level_last_layer decode_sample join_entry doc_baseline
           (fs_shadow doc_debug doc_lower) defaultSources baselineDTO None
           [ dto.mk None None (Some "DEBUG"%string) None;
             dto.mk None None (Some "debug"%string) None ]).
  - reflexivity.
  - eexists. split; reflexivity.
  - reflexivity.
Defined.

(** A warning and an error end a run with colours and no [--format] with
    the exit status 1, and a run with [--format json] with nil. *)
Example ShowErrorMessages_rich :
  interactive.ShowErrorMessages slog.LevelInfo sampleMessages
    (interactive.ConfigureUISettings
       (cli.mkContext (fun _ => false) (fun _ => EmptyString)))
  = Some (cli.Exit EmptyString 1) /\
  interactive.ShowErrorMessages slog.LevelInfo sampleMessages
    (fst (interactive.SetupFormatOption ctx_json
            (interactive.ConfigureUISettings ctx_json) 65))
  = None.
Proof. split; reflexivity. Qed.

(** An unsupported format. *)
Example SetupFormatOption_yaml :
  snd (interactive.SetupFormatOption ctx_yaml
         (interactive.ConfigureUISettings ctx_yaml) 65)
  = Some (cli.Exit
            ("unsupported format: yaml (supported formats: " ++ dquote ++ "json"
             ++ dquote ++ ")") 65).
Proof. reflexivity. Qed.
